(** * A proof-of-work ledger replica: blockchain.py

    A shallow embedding of the [Blockchain] class of [src/blockchain.py]
    (block creation, transaction admission, the proof-of-work puzzle, chain
    validation and longest-chain consensus) and of the [mine] and
    [full_chain] request handlers, followed by the properties of the
    specification that concern them.

    Python values are modelled as follows.
    - [int] is [Z] (unbounded, as in Python).
    - [str] is [string]; a character stands for the code point of the same
      number (code points below 256).
    - [bytes] is [list Z], one entry per byte.
    - the [float] returned by [time()] is only ever stored and serialised,
      so a timestamp is carried by its [repr], the text [json.dumps] prints.
    - a block and a transaction are dictionaries with a fixed set of keys:
      records; an amount is an [int].
    - the only lists changed in place are the ones bound to
      [self.current_transactions] and [self.chain], by [append].  [new_block]
      stores the first in the block it creates and rebinds the attribute to
      a new list before it returns, and the handlers serialise what they
      send; so between two operations no list that can still change is
      reachable along two paths, and lists are values.
    - an exception is a value of [exn]; a method of the ledger is a function
      from the ledger state to an outcome and the next state (a raised
      exception does not undo assignments made before it). *)

From Stdlib Require Import ZArith List String Ascii Lia DecimalString.
From stdpp Require Import base list strings gmap.
Import ListNotations.
Open Scope Z_scope.

(** ** hashlib.sha256 (FIPS 180-4), on bytes *)

Module SHA256.

(** 32-bit words are integers in [0, 2^32); addition wraps around. *)
Definition mask32 : Z := 0xFFFFFFFF.
Definition add32 (x y : Z) : Z := Z.land (x + y) mask32.
Definition rotr (n x : Z) : Z :=
  Z.lor (Z.shiftr x n) (Z.land (Z.shiftl x (32 - n)) mask32).
Definition shr (n x : Z) : Z := Z.shiftr x n.
Definition not32 (x : Z) : Z := Z.lxor x mask32.

Definition Ch (x y z : Z) : Z := Z.lxor (Z.land x y) (Z.land (not32 x) z).
Definition Maj (x y z : Z) : Z :=
  Z.lxor (Z.land x y) (Z.lxor (Z.land x z) (Z.land y z)).
Definition bsig0 (x : Z) : Z := Z.lxor (rotr 2 x) (Z.lxor (rotr 13 x) (rotr 22 x)).
Definition bsig1 (x : Z) : Z := Z.lxor (rotr 6 x) (Z.lxor (rotr 11 x) (rotr 25 x)).
Definition ssig0 (x : Z) : Z := Z.lxor (rotr 7 x) (Z.lxor (rotr 18 x) (shr 3 x)).
Definition ssig1 (x : Z) : Z := Z.lxor (rotr 17 x) (Z.lxor (rotr 19 x) (shr 10 x)).

(** The constants are the first 32 bits of the fractional parts of the
    square roots (initial hash value) and cube roots (round constants) of
    the first primes. *)
Fixpoint primes_from (fuel : nat) (count : nat) (n : Z) (found : list Z) : list Z :=
  match fuel, count with
  | O, _ | _, O => rev found
  | S fuel', S count' =>
      if forallb (fun p => negb (n mod p =? 0)) found
      then primes_from fuel' count' (n + 1) (n :: found)
      else primes_from fuel' count (n + 1) found
  end.
Definition primes (count : nat) : list Z := primes_from 400 count 2 [].

(** floor of the cube root, bit by bit from bit [bits - 1] down *)
Fixpoint icbrt (bits : nat) (n r : Z) : Z :=
  match bits with
  | O => r
  | S b =>
      let r' := r + Z.shiftl 1 (Z.of_nat b) in
      icbrt b n (if r' * r' * r' <=? n then r' else r)
  end.

Definition frac_sqrt (p : Z) : Z := Z.land (Z.sqrt (Z.shiftl p 64)) mask32.
Definition frac_cbrt (p : Z) : Z := Z.land (icbrt 40 (Z.shiftl p 96) 0) mask32.

Definition H0 : list Z := Eval vm_compute in map frac_sqrt (primes 8).
Definition K : list Z := Eval vm_compute in map frac_cbrt (primes 64).

(** big-endian bytes of [x], [n] bytes wide *)
Fixpoint be_bytes (n : nat) (x : Z) : list Z :=
  match n with
  | O => []
  | S n' => Z.land (Z.shiftr x (8 * Z.of_nat n')) 0xFF :: be_bytes n' x
  end.

(** Padding: a 1 bit, zeros up to 56 modulo 64 bytes, the bit length on 8 bytes. *)
Definition pad (msg : list Z) : list Z :=
  let len := Z.of_nat (length msg) in
  msg ++ 0x80 :: repeat 0 (Z.to_nat ((55 - len) mod 64)) ++ be_bytes 8 (8 * len).

Definition be_word (bs : list Z) : Z :=
  fold_left (fun acc b => Z.lor (Z.shiftl acc 8) b) bs 0.

(** the big-endian 32-bit words of a byte string; [n] bounds their number *)
Fixpoint words (n : nat) (bs : list Z) : list Z :=
  match n, bs with
  | O, _ | _, [] => []
  | S n', _ => be_word (take 4 bs) :: words n' (drop 4 bs)
  end.

(** Message schedule. [recent] holds W(t-1), W(t-2), ..., most recent first. *)
Fixpoint schedule (n : nat) (recent : list Z) : list Z :=
  match n with
  | O => recent
  | S n' =>
      let w := add32 (add32 (ssig1 (nth 1 recent 0)) (nth 6 recent 0))
                     (add32 (ssig0 (nth 14 recent 0)) (nth 15 recent 0)) in
      schedule n' (w :: recent)
  end.

(** The eight working variables a..h, in that order. *)
Definition step (v : list Z) (kw : Z * Z) : list Z :=
  match v with
  | [a; b; c; d; e; f; g; h] =>
      let t1 := add32 (add32 (add32 h (bsig1 e)) (add32 (Ch e f g) kw.1)) kw.2 in
      let t2 := add32 (bsig0 a) (Maj a b c) in
      [add32 t1 t2; a; b; c; add32 d t1; e; f; g]
  | _ => v
  end.

Definition compress (h : list Z) (block : list Z) : list Z :=
  let w := rev (schedule 48 (rev block)) in
  zip_with add32 h (fold_left step (zip K w) h).

Fixpoint absorb (n : nat) (ws : list Z) (h : list Z) : list Z :=
  match n, ws with
  | O, _ | _, [] => h
  | S n', _ => absorb n' (drop 16 ws) (compress h (take 16 ws))
  end.

Definition digest (msg : list Z) : list Z :=
  let p := pad msg in
  let ws := words (length p) p in
  absorb (length ws) ws H0.

Definition hex_digit (d : Z) : ascii :=
  ascii_of_nat (Z.to_nat (if d <? 10 then 48 + d else 87 + d)).

(** [n] lowercase hexadecimal digits of [x], most significant first *)
Fixpoint hex (n : nat) (x : Z) : string :=
  match n with
  | O => EmptyString
  | S n' => String (hex_digit (Z.land (Z.shiftr x (4 * Z.of_nat n')) 0xF)) (hex n' x)
  end.

(** [hashlib.sha256(msg).hexdigest()] *)
Definition hexdigest (msg : list Z) : string :=
  fold_right (fun w s => hex 8 w +:+ s) EmptyString (digest msg).

End SHA256.

(** ** Python strings, integers and JSON text *)

Module Py.

(** [str(n)] and [f'{n}'] for an [int]: decimal digits, a minus sign first
    when negative. *)
Definition str (n : Z) : string := NilZero.string_of_int (Z.to_int n).

(** [s.encode()]: UTF-8 *)
Definition encode_char (c : ascii) : list Z :=
  let n := Z.of_nat (nat_of_ascii c) in
  if n <? 128 then [n]
  else [Z.lor 0xC0 (Z.shiftr n 6); Z.lor 0x80 (Z.land n 0x3F)].
Definition encode (s : string) : list Z :=
  flat_map encode_char (list_ascii_of_string s).

(** [s[:n]]: the first [n] characters, fewer when [s] is shorter *)
Fixpoint slice_to (n : nat) (s : string) : string :=
  match n, s with
  | S n', String c s' => String c (slice_to n' s')
  | _, _ => EmptyString
  end.

Definition dquote : ascii := ascii_of_nat 34.
Definition quoted (s : string) : string := String dquote (s +:+ String dquote EmptyString).

(** One character of a JSON string as [json.dumps] writes it
    ([ensure_ascii=True]). *)
Definition json_char (c : ascii) : string :=
  let n := Z.of_nat (nat_of_ascii c) in
  if n =? 34 then String "\" (String dquote EmptyString)
  else if n =? 92 then "\\"
  else if n =? 10 then "\n"
  else if n =? 13 then "\r"
  else if n =? 9 then "\t"
  else if n =? 12 then "\f"
  else if n =? 8 then "\b"
  else if (n <? 32) || (126 <? n) then "\u" +:+ SHA256.hex 4 n
  else String c EmptyString.

Definition json_string (s : string) : string :=
  quoted (fold_right (fun c r => json_char c +:+ r) EmptyString (list_ascii_of_string s)).

(** [", ".join(items)] *)
Fixpoint join (items : list string) : string :=
  match items with
  | [] => EmptyString
  | [x] => x
  | x :: rest => x +:+ ", " +:+ join rest
  end.

(** a JSON object from its members, given in key order *)
Definition json_object (members : list (string * string)) : string :=
  "{" +:+ join (map (fun kv => quoted kv.1 +:+ ": " +:+ kv.2) members) +:+ "}".
Definition json_array (items : list string) : string := "[" +:+ join items +:+ "]".

End Py.

(** ** Data model *)

Record Transaction := {
  sender : string;
  recipient : string;
  amount : Z;
}.

(** The values [previous_hash] takes: the genesis block holds the integer
    1, every other block a hex digest. *)
Inductive PyVal :=
  | PInt (n : Z)
  | PStr (s : string).

Record Timestamp := { repr : string }.

Record Block := {
  index : Z;
  timestamp : Timestamp;
  transactions : list Transaction;
  proof : Z;
  previous_hash : PyVal;
}.

Record Blockchain := {
  chain : list Block;
  current_transactions : list Transaction;
  nodes : gset string;
}.

(** Truth value of a Python object: [0] and the empty string are false. *)
Definition truthy (v : PyVal) : bool :=
  match v with
  | PInt n => negb (n =? 0)
  | PStr s => negb (String.eqb s EmptyString)
  end.

(** [v == h] for a string [h]: an [int] never equals a [str]. *)
Definition eq_str (v : PyVal) (h : string) : bool :=
  match v with
  | PInt _ => false
  | PStr s => String.eqb s h
  end.

(** ** Exceptions and ledger methods *)

Inductive exn :=
  IndexError | KeyError | JSONDecodeError | ConnectionError | ValueError.

Inductive Outcome (A : Type) :=
  | Return (a : A)
  | Raise (e : exn).
Arguments Return {A} a.
Arguments Raise {A} e.

(** A method: the outcome and the ledger state it leaves. *)
Definition M (A : Type) : Type := Blockchain -> Outcome A * Blockchain.

#[global] Instance M_ret : MRet M := fun A a self => (Return a, self).
#[global] Instance M_bind : MBind M := fun A B f m self =>
  match m self with
  | (Return a, self') => f a self'
  | (Raise e, self') => (Raise e, self')
  end.

Definition raise {A} (e : exn) : M A := fun self => (Raise e, self).
Definition get_self : M Blockchain := fun self => (Return self, self).
Definition set_self (self' : Blockchain) : M unit := fun _ => (Return tt, self').

(** ** json.dumps(block, sort_keys=True) and Blockchain.hash *)

Definition dumps_value (v : PyVal) : string :=
  match v with
  | PInt n => Py.str n
  | PStr s => Py.json_string s
  end.

Definition dumps_transaction (t : Transaction) : string :=
  Py.json_object [("amount", Py.str (amount t));
                  ("recipient", Py.json_string (recipient t));
                  ("sender", Py.json_string (sender t))].

Definition json_dumps (block : Block) : string :=
  Py.json_object [("index", Py.str (index block));
                  ("previous_hash", dumps_value (previous_hash block));
                  ("proof", Py.str (proof block));
                  ("timestamp", repr (timestamp block));
                  ("transactions", Py.json_array (map dumps_transaction (transactions block)))].

Definition hash (block : Block) : string :=
  let block_string := Py.encode (json_dumps block) in
  SHA256.hexdigest block_string.

(** ** The proof-of-work puzzle *)

Definition valid_proof (last_proof proof : Z) : bool :=
  let guess := Py.encode (Py.str last_proof +:+ Py.str proof) in
  let guess_hash := SHA256.hexdigest guess in
  String.eqb (Py.slice_to 4 guess_hash) "0000".

(** The [while] loop of [proof_of_work], entered with the current value of
    [proof]; [fuel] bounds the number of times the loop test is evaluated,
    [None] means the bound was reached before the loop ended. *)
Fixpoint proof_of_work_loop (fuel : nat) (last_proof proof : Z) : option Z :=
  match fuel with
  | O => None
  | S fuel' =>
      if negb (valid_proof last_proof proof)
      then proof_of_work_loop fuel' last_proof (proof + 1)
      else Some proof
  end.

Definition proof_of_work (fuel : nat) (last_proof : Z) : option Z :=
  proof_of_work_loop fuel last_proof 0.

(** ** The ledger *)

Definition set_chain (c : list Block) : M unit := fun self =>
  (Return tt, {| chain := c;
                 current_transactions := current_transactions self;
                 nodes := nodes self |}).
Definition set_current_transactions (l : list Transaction) : M unit := fun self =>
  (Return tt, {| chain := chain self;
                 current_transactions := l;
                 nodes := nodes self |}).
Definition set_nodes (n : gset string) : M unit := fun self =>
  (Return tt, {| chain := chain self;
                 current_transactions := current_transactions self;
                 nodes := n |}).

(** [self.chain[-1]] *)
Definition last_block : M Block := fun self =>
  match last (chain self) with
  | Some block => (Return block, self)
  | None => (Raise IndexError, self)
  end.

(** [previous_hash or self.hash(self.chain[-1])]: the right operand is
    evaluated only when the left one is [None] or false. *)
Definition previous_hash_or_tip (previous_hash : option PyVal) : M PyVal :=
  match previous_hash with
  | Some v =>
      if truthy v then mret v
      else tip ← last_block; mret (PStr (hash tip))
  | None => tip ← last_block; mret (PStr (hash tip))
  end.

(** [now] is what [time()] returns during the call. *)
Definition new_block (proof : Z) (previous_hash : option PyVal) (now : Timestamp)
  : M Block :=
  self ← get_self;
  prev ← previous_hash_or_tip previous_hash;
  let block := {| index := Z.of_nat (length (chain self)) + 1;
                  timestamp := now;
                  transactions := current_transactions self;
                  proof := proof;
                  previous_hash := prev |} in
  set_current_transactions [];;
  self ← get_self;
  set_chain (chain self ++ [block]);;
  mret block.

Definition add_transaction (sender recipient : string) (amount : Z) : M Z :=
  self ← get_self;
  set_current_transactions
    (current_transactions self ++
       [{| sender := sender; recipient := recipient; amount := amount |}]);;
  tip ← last_block;
  mret (index tip + 1).

(** [netloc address] stands for [urlparse(address).netloc]: [None] where
    [urlparse] raises [ValueError] (a malformed bracketed host, for
    one), before anything is added. *)
Definition register_node (netloc : string -> option string) (address : string)
  : M unit :=
  match netloc address with
  | None => raise ValueError
  | Some location =>
      self ← get_self;
      set_nodes ({[ location ]} ∪ nodes self)
  end.

(** [Blockchain()]: the three attributes, then the genesis block. *)
Definition empty_ledger : Blockchain :=
  {| chain := []; current_transactions := []; nodes := ∅ |}.
Definition __init__ (now : Timestamp) : Outcome Block * Blockchain :=
  new_block 100 (Some (PInt 1)) now empty_ledger.
Definition fresh_ledger (now : Timestamp) : Blockchain := (__init__ now).2.

(** ** Chain validation *)

(** The [while] loop of [valid_chain]: [rest] is [chain[current_index:]]. *)
Fixpoint valid_links (last_block : Block) (rest : list Block) : bool :=
  match rest with
  | [] => true
  | block :: rest' =>
      if negb (eq_str (previous_hash block) (hash last_block)) then false
      else if negb (valid_proof (proof last_block) (proof block)) then false
      else valid_links block rest'
  end.

(** [chain[0]] raises on an empty list.  The three [print] calls of the
    loop write to standard output only and are left out. *)
Definition valid_chain (chain : list Block) : M bool :=
  match chain with
  | [] => raise IndexError
  | first :: rest => mret (valid_links first rest)
  end.

(** ** Consensus *)

(** What [requests.get] finds at a peer: no connection (it raises), or a
    response with a status code and a body.  A body is either not JSON, or
    a JSON object that has or lacks the keys ['length'] and ['chain'].  A
    chain is a list of blocks with the five keys, as [full_chain] serves
    them; lists of other JSON values are not represented. *)
Inductive Body :=
  | NotJSON
  | Document (length : option Z) (chain : option (list Block)).

Inductive Fetch :=
  | Unreachable
  | Response (status_code : Z) (body : Body).

(** [response.json()['length']] and [response.json()['chain']] *)
Definition json_length (body : Body) : M Z :=
  match body with
  | NotJSON => raise JSONDecodeError
  | Document None _ => raise KeyError
  | Document (Some n) _ => mret n
  end.
Definition json_chain (body : Body) : M (list Block) :=
  match body with
  | NotJSON => raise JSONDecodeError
  | Document _ None => raise KeyError
  | Document _ (Some c) => mret c
  end.

Section Network.
(** [get node] is the outcome of [requests.get(f'http://{node}/chain')];
    [iter] is the order in which a [for] loop visits a set. *)
Context (get : string -> Fetch) (iter : gset string -> list string).

(** The [for] loop of [resolve_conflicts] over the peers left to visit,
    with the current values of [max_length] and [new_chain]. *)
Fixpoint resolve_loop (neighbours : list string) (max_length : Z)
    (new_chain : option (list Block)) : M (Z * option (list Block)) :=
  match neighbours with
  | [] => mret (max_length, new_chain)
  | node :: rest =>
      match get node with
      | Unreachable => raise ConnectionError
      | Response status_code body =>
          if status_code =? 200 then
            length ← json_length body;
            chain ← json_chain body;
            longer_and_valid ←
              (if max_length <? length then valid_chain chain else mret false);
            if longer_and_valid : bool
            then resolve_loop rest length (Some chain)
            else resolve_loop rest max_length new_chain
          else resolve_loop rest max_length new_chain
      end
  end.

(** [if new_chain:] holds for a list that is not empty. *)
Definition resolve_conflicts : M bool :=
  self ← get_self;
  let neighbours := iter (nodes self) in
  found ← resolve_loop neighbours (Z.of_nat (length (chain self))) None;
  match found.2 with
  | Some (b :: c) => set_chain (b :: c);; mret true
  | _ => mret false
  end.
End Network.

(** ** Request handlers *)

(** [GET /mine]; [None] when the search for a proof did not end within
    [fuel] tests. *)
Definition mine (NODE_IDENTIFIER : string) (fuel : nat) (now : Timestamp)
    (blockchain : Blockchain) : option (Outcome Block * Blockchain) :=
  match last_block blockchain with
  | (Raise e, s) => Some (Raise e, s)
  | (Return tip, s) =>
      let last_proof := proof tip in
      match proof_of_work fuel last_proof with
      | None => None
      | Some p =>
          Some ((add_transaction "0" NODE_IDENTIFIER 1;; new_block p None now) s)
      end
  end.

(** [GET /chain]: the answer a peer running this program gives. *)
Definition full_chain (blockchain : Blockchain) : Fetch :=
  Response 200 (Document (Some (Z.of_nat (length (chain blockchain))))
                         (Some (chain blockchain))).


(** [POST /transactions/new].  [values] is the JSON object of the request:
    each of the three keys is there or not, a sender and a recipient being
    strings and an amount an integer; other keys are not read.  The reply
    is the body and the status code; the message of a 201 reply is carried
    by the index it mentions. *)
Record NewTransaction := {
  values_sender : option string;
  values_recipient : option string;
  values_amount : option Z;
}.

Inductive TransactionReply :=
  | Missing_values
  | Added (index : Z).

Definition new_transactions (values : NewTransaction) : M (TransactionReply * Z) :=
  match values_sender values, values_recipient values, values_amount values with
  | Some s, Some r, Some a =>
      index ← add_transaction s r a;
      mret (Added index, 201)
  | _, _, _ => mret (Missing_values, 400)
  end.

(** [POST /nodes/resister].  [new_nodes] is [values.get('nodes')]: [None]
    when the key is missing.  The 201 reply lists the peers, in the order
    [list] visits the set. *)
Inductive NodesReply :=
  | Invalid_list
  | Total_nodes (total_nodes : list string).

Fixpoint register_each (netloc : string -> option string) (new_nodes : list string)
  : M unit :=
  match new_nodes with
  | [] => mret tt
  | node :: rest => register_node netloc node;; register_each netloc rest
  end.

Definition resister_new_node (netloc : string -> option string)
    (iter : gset string -> list string) (new_nodes : option (list string))
  : M (NodesReply * Z) :=
  match new_nodes with
  | None => mret (Invalid_list, 400)
  | Some new_nodes =>
      register_each netloc new_nodes;;
      self ← get_self;
      mret (Total_nodes (iter (nodes self)), 201)
  end.

(** [GET /nodes/resolve].  Both messages come with status 200; the reply
    is carried by [replaced] and the chain it shows. *)
Definition consensus (get : string -> Fetch) (iter : gset string -> list string)
  : M (bool * list Block * Z) :=
  replaced ← resolve_conflicts get iter;
  self ← get_self;
  mret (replaced, chain self, 200).
(** * Vocabulary of the specification *)

(** The words of the specification: the digest begins with [k] characters
    ['0']. *)
Definition leading_zeros (k : nat) (s : string) : Prop :=
  forall i, (i < k)%nat -> String.get i s = Some "0"%char.

(** A link of the chain: the hash pointer and the puzzle both hold. *)
Definition linked (prev cur : Block) : Prop :=
  previous_hash cur = PStr (hash prev) /\
  valid_proof (proof prev) (proof cur) = true.

Definition well_linked (c : list Block) : Prop :=
  forall (i : nat) (prev cur : Block),
    c !! i = Some prev -> c !! S i = Some cur -> linked prev cur.

(** Block indices are 1, 2, 3, ... along the chain. *)
Definition contiguous (c : list Block) : Prop :=
  forall (i : nat) (b : Block), c !! i = Some b -> index b = Z.of_nat i + 1.

(** The ledgers obtained from a freshly constructed one by submitting
    transactions and by mining: [proof_of_work] on the proof of the tip,
    then [new_block] with the proof found and no [previous_hash]. *)
Inductive built : Blockchain -> Prop :=
  | built_fresh (now : Timestamp) :
      built (fresh_ledger now)
  | built_submit (self : Blockchain) (sender recipient : string) (amount : Z) :
      built self ->
      built (add_transaction sender recipient amount self).2
  | built_mined (self : Blockchain) (tip : Block) (fuel : nat) (p : Z)
                (now : Timestamp) :
      built self ->
      last (chain self) = Some tip ->
      proof_of_work fuel (proof tip) = Some p ->
      built (new_block p None now self).2.

(** The value [new_block] stores as [previous_hash], given the tip. *)
Definition stored_previous_hash (supplied : option PyVal) (tip : Block) : PyVal :=
  match supplied with
  | Some v => if truthy v then v else PStr (hash tip)
  | None => PStr (hash tip)
  end.

(** The reward transaction of [mine]. *)
Definition reward (NODE_IDENTIFIER : string) : Transaction :=
  {| sender := "0"; recipient := NODE_IDENTIFIER; amount := 1 |}.

Definition submit (t : Transaction) : M Z :=
  add_transaction (sender t) (recipient t) (amount t).

(** ** Consensus *)

(** A chain passes validation: [valid_chain] returns [True]. *)
Definition accepted (c : list Block) : Prop :=
  forall self : Blockchain, valid_chain c self = (Return true, self).

Definition passes (c : list Block) : bool :=
  match c with
  | [] => false
  | first :: rest => valid_links first rest
  end.

(** A peer that answers, and whose answer under status 200 holds a length
    and a chain, the chain not empty. *)
Definition answers (f : Fetch) : Prop :=
  match f with
  | Unreachable => False
  | Response status_code body =>
      status_code = 200 ->
      exists n c, body = Document (Some n) (Some c) /\ c <> []
  end.

(** The exception a peer makes [resolve_conflicts] raise before any chain
    is looked at: no connection, or status 200 with a body that is not JSON
    or lacks a key. *)
Definition failure (f : Fetch) : option exn :=
  match f with
  | Unreachable => Some ConnectionError
  | Response status_code body =>
      if status_code =? 200 then
        match body with
        | NotJSON => Some JSONDecodeError
        | Document None _ => Some KeyError
        | Document (Some _) None => Some KeyError
        | Document (Some _) (Some _) => None
        end
      else None
  end.

(** The reported length and the chain a peer offers: nothing unless its
    status is 200. *)
Definition payload (f : Fetch) : option (Z * list Block) :=
  match f with
  | Response status_code (Document (Some n) (Some c)) =>
      if status_code =? 200 then Some (n, c) else None
  | _ => None
  end.

Definition candidates (get : string -> Fetch) (order : list string)
  : list (Z * list Block) :=
  omap (fun node => payload (get node)) order.

(** One step of the scan, as the specification words it: a candidate
    replaces the best so far when its length is strictly greater than the
    best length and its chain is valid. *)
Definition pick (best : Z * option (list Block)) (cand : Z * list Block)
  : Z * option (list Block) :=
  if (best.1 <? cand.1) && passes cand.2 then (cand.1, Some cand.2) else best.

Definition with_chain (self : Blockchain) (c : list Block) : Blockchain :=
  {| chain := c;
     current_transactions := current_transactions self;
     nodes := nodes self |}.

(** ** Sample ledgers *)

Module Sample.

Definition t0 : Timestamp := {| repr := "1700000000.25" |}.
Definition t1 : Timestamp := {| repr := "1700000060.5" |}.
Definition t2 : Timestamp := {| repr := "1700000120.75" |}.
Definition t3 : Timestamp := {| repr := "1700000180.0" |}.
Definition t4 : Timestamp := {| repr := "1700000240.125" |}.

Definition node_id : string := "5f2a9c0e7b1d4c3f8a6e2b9d0c4f7a1e".

Definition alice_pays_bob : Transaction :=
  {| sender := "alice"; recipient := "bob"; amount := 5 |}.
Definition bob_pays_carol : Transaction :=
  {| sender := "bob"; recipient := "carol"; amount := 2 |}.
Definition carol_pays_alice : Transaction :=
  {| sender := "carol"; recipient := "alice"; amount := 1 |}.

Definition genesis : Block :=
  {| index := 1; timestamp := t0; transactions := [];
     proof := 100; previous_hash := PInt 1 |}.

(** The ledger after one more block with the given proof, built by
    [new_block] itself. *)
Definition grow (p : Z) (now : Timestamp) (self : Blockchain) : Blockchain :=
  (new_block p None now self).2.

(** Proofs found by the search outside this development; each is checked
    against its predecessor by [valid_proof] where it is used. *)
Definition ledger1 : Blockchain := fresh_ledger t0.
Definition ledger2 : Blockchain := Eval vm_compute in grow 35293 t1 ledger1.
Definition ledger3 : Blockchain := Eval vm_compute in grow 35089 t2 ledger2.
Definition ledger4 : Blockchain := Eval vm_compute in grow 119678 t3 ledger3.
Definition ledger5 : Blockchain := Eval vm_compute in grow 146502 t4 ledger4.

(** Two peers, one block and two blocks ahead of [ledger3]. *)
Definition peer4 : string := "192.168.0.4:5000".
Definition peer5 : string := "192.168.0.5:5000".
Definition network (node : string) : Fetch :=
  if String.eqb node peer4 then full_chain ledger4
  else if String.eqb node peer5 then full_chain ledger5
  else Unreachable.

(** What [urlparse] finds in the addresses used below: the host and port
    after the scheme, nothing in an address without a scheme, and an
    error in a bracket that is never closed. *)
Definition address4 : string := "http://192.168.0.4:5000".
Definition address5 : string := "http://192.168.0.5:5000".
Definition broken_address : string := "http://[".
Definition netloc (address : string) : option string :=
  if String.eqb address address4 then Some peer4
  else if String.eqb address address5 then Some peer5
  else if String.eqb address broken_address then None
  else Some EmptyString.

Definition replica : Blockchain :=
  (register_node netloc address5 (register_node netloc address4 ledger3).2).2.

(** A peer that reports a length of 9 and sends a chain of one block. *)
Definition boaster (node : string) : Fetch :=
  Response 200 (Document (Some 9) (Some (chain ledger1))).

(** [peer4] answers 503, [peer5] as before. *)
Definition flaky (node : string) : Fetch :=
  if String.eqb node peer4 then Response 503 NotJSON
  else if String.eqb node peer5 then full_chain ledger5
  else Unreachable.

(** A peer that does not answer, and one that answers with text that is
    not JSON. *)
Definition silent (node : string) : Fetch := Unreachable.
Definition garbled (node : string) : Fetch := Response 200 NotJSON.

End Sample.

(** ** Ledgers a node can reach *)

(** The ledgers a running node goes through: constructed, then changed by
    any of its methods, with any peers at the other end of
    [resolve_conflicts], whether or not the call raises. *)
Inductive reachable : Blockchain -> Prop :=
  | reach_fresh (now : Timestamp) :
      reachable (fresh_ledger now)
  | reach_submit (self : Blockchain) (sender recipient : string) (amount : Z) :
      reachable self ->
      reachable (add_transaction sender recipient amount self).2
  | reach_mined (self : Blockchain) (tip : Block) (fuel : nat) (p : Z)
                (now : Timestamp) :
      reachable self ->
      last (chain self) = Some tip ->
      proof_of_work fuel (proof tip) = Some p ->
      reachable (new_block p None now self).2
  | reach_register (self : Blockchain) (netloc : string -> option string)
                   (address : string) :
      reachable self ->
      reachable (register_node netloc address self).2
  | reach_resolve (self : Blockchain) (get : string -> Fetch)
                  (iter : gset string -> list string) :
      reachable self ->
      reachable (resolve_conflicts get iter self).2.

(** The genesis block a ledger constructed at [now] starts with. *)
Definition genesis_block (now : Timestamp) : Block :=
  {| index := 1; timestamp := now; transactions := [];
     proof := 100; previous_hash := PInt 1 |}.

(** A lowercase hexadecimal digit. *)
Definition hex_char (c : ascii) : Prop :=
  In c (list_ascii_of_string "0123456789abcdef").

(** The greatest length on offer among the valid chains, [m] at least. *)
Definition best_length (m : Z) (offers : list (Z * list Block)) : Z :=
  (fold_left pick offers (m, None)).1.

(** The last block of a chain that has one, the genesis of the sample
    ledgers otherwise. *)
Definition grow_tip (self : Blockchain) : Block :=
  default Sample.genesis (last (chain self)).

(** Every transaction a ledger holds, in order: those of its blocks, then
    the pending ones. *)
Definition ledger_transactions (self : Blockchain) : list Transaction :=
  concat (transactions <$> chain self) ++ current_transactions self.
(** * Properties *)

Ltac run :=
  repeat (first
    [ progress cbn [mbind mret M_bind M_ret raise get_self set_self set_chain
                    set_current_transactions set_nodes fst snd]
    | progress unfold mbind, mret, M_bind, M_ret, raise, get_self, set_self,
                      set_chain, set_current_transactions, set_nodes ]).


(** ** Test vectors *)

Example sha256_abc :
  SHA256.hexdigest (Py.encode "abc")
  = "ba7816bf8f01cfea414140de5dae2223b00361a396177a9cb410ff61f20015ad".
Proof. vm_compute. reflexivity. Qed.

Example sha256_empty :
  SHA256.hexdigest []
  = "e3b0c44298fc1c149afbf4c8996fb92427ae41e4649b934ca495991b7852b855".
Proof. vm_compute. reflexivity. Qed.

Example sha256_two_blocks :
  SHA256.hexdigest (Py.encode "abcdbcdecdefdefgefghfghighijhijkijkljklmklmnlmnomnopnopq")
  = "248d6a61d20638b8e5c026930c3e6039a33ce45964ff2167f6ecedd419db06c1".
Proof. vm_compute. reflexivity. Qed.

(** Digests of serialised blocks, as [hashlib] and [json] give them: the
    genesis block, a block of four transactions, and a block whose strings
    need escaping. *)
Example hash_genesis :
  hash Sample.genesis
  = "0d2420841168978413448be62e8f44a6c32c168768f1cee2f0cb7ea2a7720ba0".
Proof. vm_compute. reflexivity. Qed.

Example hash_four_transactions :
  hash {| index := 2; timestamp := Sample.t1;
          transactions := [Sample.alice_pays_bob; Sample.bob_pays_carol;
                           Sample.carol_pays_alice; reward Sample.node_id];
          proof := 35293;
          previous_hash := PStr (hash Sample.genesis) |}
  = "6d7446477575618ae9be42e99dec222aba2a4ef29e077a61bbb6dd9142f0845c".
Proof. vm_compute. reflexivity. Qed.

Example hash_escapes :
  let quote := String Py.dquote EmptyString in
  let ch n := String (ascii_of_nat (Z.to_nat n)) EmptyString in
  hash {| index := 7; timestamp := {| repr := "1.5" |};
          transactions :=
            [{| sender := "a" +:+ quote +:+ "b\c" +:+ ch 1;
                recipient := "x" +:+ ch 10 +:+ "y" +:+ ch 127 +:+ ch 233 +:+ ch 9 +:+ " z";
                amount := -5 |}];
          proof := 0;
          previous_hash := PStr EmptyString |}
  = "926d60ba3f6392b4b3601a0ea38c13c2ac1fbd2479773ba9174564a4ec453b8e".
Proof. vm_compute. reflexivity. Qed.

Example str_examples :
  Py.str 0 = "0" /\ Py.str 35293 = "35293" /\ Py.str (-5) = "-5".
Proof. vm_compute. auto. Qed.

Example valid_proof_100_35293 : valid_proof 100 35293 = true.
Proof. vm_compute. reflexivity. Qed.

Example valid_proof_100_35292 : valid_proof 100 35292 = false.
Proof. vm_compute. reflexivity. Qed.

Example proof_of_work_30916 : proof_of_work 3 30916 = Some 2.
Proof. vm_compute. reflexivity. Qed.

(** ** The puzzle *)


Lemma slice_to_zeros (s : string) :
  String.eqb (Py.slice_to 4 s) "0000" = true <-> leading_zeros 4 s.
Proof.
  rewrite String.eqb_eq. unfold leading_zeros. split.
  - intros H i Hi.
    destruct s as [|c0 [|c1 [|c2 [|c3 s]]]]; simpl in H; try discriminate.
    injection H as -> -> -> ->.
    destruct i as [|[|[|[|i]]]]; simpl; try reflexivity; lia.
  - intros H.
    pose proof (H 0%nat ltac:(lia)) as H0.
    pose proof (H 1%nat ltac:(lia)) as H1.
    pose proof (H 2%nat ltac:(lia)) as H2.
    pose proof (H 3%nat ltac:(lia)) as H3.
    destruct s as [|c0 [|c1 [|c2 [|c3 s]]]]; simpl in *; try discriminate.
    congruence.
Qed.

(** C5. [valid_proof last_proof proof] is true exactly when the SHA-256 hex
    digest of the UTF-8 encoding of the decimal string of [last_proof]
    followed by the decimal string of [proof] begins with four ['0']
    characters. *)
Theorem valid_proof_iff_leading_zeros (last_proof proof : Z) :
  valid_proof last_proof proof = true <->
  leading_zeros 4
    (SHA256.hexdigest (Py.encode (Py.str last_proof +:+ Py.str proof))).
Proof. unfold valid_proof. apply slice_to_zeros. Qed.

(** C10. The check reads the two integers only through the concatenation of
    their decimal strings: two pairs of non-negative integers with the same
    concatenation get the same answer. *)
Theorem valid_proof_concatenation (a b c d : Z) :
  0 <= a -> 0 <= b -> 0 <= c -> 0 <= d ->
  Py.str a +:+ Py.str b = Py.str c +:+ Py.str d ->
  valid_proof a b = valid_proof c d.
Proof. intros _ _ _ _ H. unfold valid_proof. rewrite H. reflexivity. Qed.

Lemma valid_proof_concatenation_witness :
  (1, 23) <> (12, 3) /\
  Py.str 1 +:+ Py.str 23 = Py.str 12 +:+ Py.str 3 /\
  valid_proof 1 23 = valid_proof 12 3.
Proof.
  split; [discriminate|]. split; [reflexivity|].
  apply valid_proof_concatenation; [lia | lia | lia | lia | reflexivity].
Defined.

(** The loop started at [start] ends at the first valid proof it meets:
    when [start + k] is valid and nothing before it is, the loop returns it
    as soon as it may test [k + 1] candidates, and not earlier. *)
Lemma proof_of_work_loop_first (last_proof : Z) (k : nat) :
  forall (start : Z) (fuel : nat),
    valid_proof last_proof (start + Z.of_nat k) = true ->
    (forall j, (j < k)%nat -> valid_proof last_proof (start + Z.of_nat j) = false) ->
    proof_of_work_loop fuel last_proof start
    = if decide (k < fuel)%nat then Some (start + Z.of_nat k) else None.
Proof.
  induction k as [|k IH]; intros start fuel Hk Hbefore.
  - replace (start + Z.of_nat 0) with start in * by lia.
    destruct fuel as [|fuel]; cbn [proof_of_work_loop].
    + case_decide; [lia | reflexivity].
    + rewrite Hk. cbn [negb]. case_decide; [reflexivity | lia].
  - destruct fuel as [|fuel]; cbn [proof_of_work_loop].
    + case_decide; [lia | reflexivity].
    + pose proof (Hbefore 0%nat ltac:(lia)) as H0.
      replace (start + Z.of_nat 0) with start in H0 by lia.
      rewrite H0. cbn [negb].
      rewrite (IH (start + 1) fuel).
      * replace (start + 1 + Z.of_nat k) with (start + Z.of_nat (S k)) by lia.
        repeat case_decide; try reflexivity; lia.
      * replace (start + 1 + Z.of_nat k) with (start + Z.of_nat (S k)) by lia.
        exact Hk.
      * intros j Hj.
        replace (start + 1 + Z.of_nat j) with (start + Z.of_nat (S j)) by lia.
        apply Hbefore. lia.
Qed.

(** Below any bound, either no proof is valid or there is a least valid one. *)
Lemma first_valid_below (last_proof : Z) (n : nat) :
  (forall j, (j < n)%nat -> valid_proof last_proof (Z.of_nat j) = false) \/
  exists k, (k < n)%nat /\ valid_proof last_proof (Z.of_nat k) = true /\
            forall j, (j < k)%nat -> valid_proof last_proof (Z.of_nat j) = false.
Proof.
  induction n as [|n [Hnone|(k & Hk & Hv & Hmin)]].
  - left. intros j Hj. lia.
  - destruct (valid_proof last_proof (Z.of_nat n)) eqn:E.
    + right. exists n. split; [lia|]. split; [exact E | exact Hnone].
    + left. intros j Hj. destruct (decide (j = n)) as [->|Hne]; [exact E|].
      apply Hnone. lia.
  - right. exists k. split; [lia|]. split; [exact Hv | exact Hmin].
Qed.

Lemma least_valid_proof (last_proof : Z) (n : nat) :
  valid_proof last_proof (Z.of_nat n) = true ->
  exists k, (k <= n)%nat /\ valid_proof last_proof (Z.of_nat k) = true /\
            forall j, (j < k)%nat -> valid_proof last_proof (Z.of_nat j) = false.
Proof.
  intros Hn.
  destruct (first_valid_below last_proof n) as [Hnone|(k & Hk & Hv & Hmin)].
  - exists n. split; [lia|]. split; [exact Hn | exact Hnone].
  - exists k. split; [lia|]. split; [exact Hv | exact Hmin].
Qed.

(** The search ends whenever a valid proof exists, on the least one. *)
Lemma proof_of_work_returns (last_proof p : Z) :
  0 <= p -> valid_proof last_proof p = true ->
  exists q, 0 <= q <= p /\ valid_proof last_proof q = true /\
    (forall r, 0 <= r < q -> valid_proof last_proof r = false) /\
    forall fuel, proof_of_work fuel last_proof
                 = if decide (Z.to_nat q < fuel)%nat then Some q else None.
Proof.
  intros Hp Hv.
  destruct (least_valid_proof last_proof (Z.to_nat p)) as (k & Hk & Hkv & Hmin).
  { rewrite Z2Nat.id by lia. exact Hv. }
  exists (Z.of_nat k). split; [lia|]. split; [exact Hkv|]. split.
  - intros r Hr. replace r with (Z.of_nat (Z.to_nat r)) by lia. apply Hmin. lia.
  - intros fuel. unfold proof_of_work.
    rewrite (proof_of_work_loop_first last_proof k 0 fuel).
    + rewrite Nat2Z.id. reflexivity.
    + exact Hkv.
    + intros j Hj. apply Hmin. exact Hj.
Qed.

(** C4. When some non-negative proof is valid for [last_proof], the search
    returns the smallest non-negative proof that is valid; it tests
    0, 1, 2, ... in turn, so it returns once it may run that proof plus one
    tests and is still running before. *)
Theorem proof_of_work_smallest (last_proof : Z) :
  0 <= last_proof ->
  (exists p, 0 <= p /\ valid_proof last_proof p = true) ->
  exists proof,
    0 <= proof /\
    valid_proof last_proof proof = true /\
    (forall q, 0 <= q < proof -> valid_proof last_proof q = false) /\
    (forall fuel, (Z.to_nat proof < fuel)%nat ->
                  proof_of_work fuel last_proof = Some proof) /\
    (forall fuel, (fuel <= Z.to_nat proof)%nat ->
                  proof_of_work fuel last_proof = None).
Proof.
  intros _ (p & Hp & Hv).
  destruct (proof_of_work_returns last_proof p Hp Hv) as (q & Hq & Hqv & Hmin & Hrun).
  exists q. split; [lia|]. split; [exact Hqv|]. split; [exact Hmin|].
  split; intros fuel Hfuel; rewrite Hrun; case_decide; try reflexivity; lia.
Qed.

Lemma proof_of_work_smallest_witness :
  exists proof,
    0 <= proof /\
    valid_proof 30916 proof = true /\
    (forall q, 0 <= q < proof -> valid_proof 30916 q = false) /\
    (forall fuel, (Z.to_nat proof < fuel)%nat ->
                  proof_of_work fuel 30916 = Some proof) /\
    (forall fuel, (fuel <= Z.to_nat proof)%nat ->
                  proof_of_work fuel 30916 = None).
Proof.
  apply (proof_of_work_smallest 30916); [lia|].
  exists 2. split; [lia | vm_compute; reflexivity].
Defined.


(** ** Chain validation *)


Lemma eq_str_true (v : PyVal) (h : string) : eq_str v h = true <-> v = PStr h.
Proof.
  destruct v as [n|s]; simpl.
  - split; discriminate.
  - rewrite String.eqb_eq. split; [intros -> | intros [= ->]]; reflexivity.
Qed.

Lemma valid_links_step (last_block block : Block) (rest : list Block) :
  valid_links last_block (block :: rest) = true <->
  linked last_block block /\ valid_links block rest = true.
Proof.
  unfold linked. rewrite <- eq_str_true. simpl.
  destruct (eq_str (previous_hash block) (hash last_block)); simpl;
    [destruct (valid_proof (proof last_block) (proof block)); simpl|];
    intuition discriminate.
Qed.

Lemma valid_links_spec (rest : list Block) :
  forall first : Block,
    valid_links first rest = true <->
    forall (i : nat) (prev cur : Block),
      (first :: rest) !! i = Some prev -> (first :: rest) !! S i = Some cur ->
      linked prev cur.
Proof.
  induction rest as [|block rest IH]; intros first.
  - split; [|reflexivity].
    intros _ [|i] prev cur H1 H2; simpl in *; discriminate.
  - rewrite valid_links_step, IH. split.
    + intros [Hfirst Hrest] [|i] prev cur H1 H2.
      * simpl in H1, H2. injection H1 as <-. injection H2 as <-. exact Hfirst.
      * apply (Hrest i); assumption.
    + intros H. split.
      * apply (H 0%nat); reflexivity.
      * intros i prev cur H1 H2. apply (H (S i)); assumption.
Qed.

(** C2. On a non-empty chain [valid_chain] returns a boolean, which is true
    exactly when every block after the first points to the hash of the block
    before it and solves the puzzle set by that block's proof; a pair that
    fails either test makes it false whatever follows; a chain of one block
    passes; the ledger it runs in is left as it was. *)
Theorem valid_chain_links (chain : list Block) (self : Blockchain) :
  chain <> [] ->
  exists answer : bool,
    valid_chain chain self = (Return answer, self) /\
    (answer = true <->
       forall (i : nat) (prev cur : Block),
         chain !! i = Some prev -> chain !! S i = Some cur -> linked prev cur) /\
    (forall (before after : list Block) (prev cur : Block),
       chain = before ++ prev :: cur :: after -> ~ linked prev cur ->
       answer = false) /\
    (length chain = 1%nat -> answer = true).
Proof.
  intros Hne. destruct chain as [|first rest]; [congruence|].
  exists (valid_links first rest). split; [reflexivity|]. split; [|split].
  - apply valid_links_spec.
  - intros before after prev cur Heq Hbad.
    destruct (valid_links first rest) eqn:E; [|reflexivity].
    exfalso. apply Hbad.
    rewrite valid_links_spec in E. apply (E (length before)); rewrite Heq.
    + apply list_lookup_middle. reflexivity.
    + rewrite (cons_middle prev), app_assoc.
      apply list_lookup_middle. rewrite length_app. simpl. lia.
  - destruct rest; [reflexivity | discriminate].
Qed.

Lemma valid_chain_links_witness :
  chain Sample.ledger3 <> [] /\
  exists answer : bool,
    valid_chain (chain Sample.ledger3) Sample.ledger3
    = (Return answer, Sample.ledger3) /\
    (answer = true <->
       forall (i : nat) (prev cur : Block),
         chain Sample.ledger3 !! i = Some prev ->
         chain Sample.ledger3 !! S i = Some cur -> linked prev cur) /\
    (forall (before after : list Block) (prev cur : Block),
       chain Sample.ledger3 = before ++ prev :: cur :: after ->
       ~ linked prev cur -> answer = false) /\
    (length (chain Sample.ledger3) = 1%nat -> answer = true).
Proof.
  split; [discriminate|]. apply valid_chain_links. discriminate.
Defined.

(** A chain of three mined blocks passes; it fails once the proof of its
    second block is changed. *)
Example valid_chain_sample :
  valid_chain (chain Sample.ledger3) Sample.ledger1 = (Return true, Sample.ledger1) /\
  valid_chain
    (<[1%nat := {| index := 2; timestamp := Sample.t1; transactions := [];
                   proof := 35294;
                   previous_hash := PStr (hash Sample.genesis) |}]>
       (chain Sample.ledger3))
    Sample.ledger1
  = (Return false, Sample.ledger1) /\
  valid_chain [] Sample.ledger1 = (Raise IndexError, Sample.ledger1).
Proof. vm_compute. repeat split. Qed.

(** ** The ledger *)

Lemma last_block_run (self : Blockchain) :
  last_block self
  = (match last (chain self) with
     | Some tip => Return tip
     | None => Raise IndexError
     end, self).
Proof. unfold last_block. destruct (last (chain self)); reflexivity. Qed.

Lemma last_nonempty {A} (l : list A) : l <> [] -> exists x, last l = Some x.
Proof.
  intros H. destruct (last l) as [x|] eqn:E; [eauto|].
  apply last_None in E. congruence.
Qed.

Lemma previous_hash_or_tip_run (supplied : option PyVal) (self : Blockchain) (tip : Block) :
  last (chain self) = Some tip ->
  previous_hash_or_tip supplied self
  = (Return (stored_previous_hash supplied tip), self).
Proof.
  intros Htip. unfold previous_hash_or_tip, stored_previous_hash.
  destruct supplied as [v|]; [destruct (truthy v)|]; run;
    rewrite ?last_block_run, ?Htip; reflexivity.
Qed.

Lemma previous_hash_or_tip_state (supplied : option PyVal) (self : Blockchain) :
  (previous_hash_or_tip supplied self).2 = self.
Proof.
  unfold previous_hash_or_tip.
  destruct supplied as [v|]; [destruct (truthy v)|]; run;
    rewrite ?last_block_run; try reflexivity;
    destruct (last (chain self)); reflexivity.
Qed.

(** What [new_block] does once [previous_hash or ...] has a value. *)
Lemma new_block_run (p : Z) (supplied : option PyVal) (now : Timestamp)
    (self : Blockchain) (prev : PyVal) :
  previous_hash_or_tip supplied self = (Return prev, self) ->
  let block := {| index := Z.of_nat (length (chain self)) + 1;
                  timestamp := now;
                  transactions := current_transactions self;
                  proof := p;
                  previous_hash := prev |} in
  new_block p supplied now self
  = (Return block, {| chain := chain self ++ [block];
                      current_transactions := [];
                      nodes := nodes self |}).
Proof. intros H. unfold new_block. run. rewrite H. reflexivity. Qed.

Lemma new_block_raise (p : Z) (supplied : option PyVal) (now : Timestamp)
    (self : Blockchain) (e : exn) :
  previous_hash_or_tip supplied self = (Raise e, self) ->
  new_block p supplied now self = (Raise e, self).
Proof. intros H. unfold new_block. run. rewrite H. reflexivity. Qed.

Lemma add_transaction_run (s r : string) (a : Z) (self : Blockchain) :
  add_transaction s r a self
  = (match last (chain self) with
     | Some tip => Return (index tip + 1)
     | None => Raise IndexError
     end,
     {| chain := chain self;
        current_transactions :=
          current_transactions self
            ++ [{| sender := s; recipient := r; amount := a |}];
        nodes := nodes self |}).
Proof.
  unfold add_transaction. run. rewrite last_block_run. simpl.
  destruct (last (chain self)); reflexivity.
Qed.

Lemma fresh_ledger_run (now : Timestamp) :
  fresh_ledger now
  = {| chain := [{| index := 1; timestamp := now; transactions := [];
                    proof := 100; previous_hash := PInt 1 |}];
       current_transactions := [];
       nodes := ∅ |}.
Proof. reflexivity. Qed.

(** C7 fails as stated.  On a fresh ledger a supplied [previous_hash] of 0,
    or the empty string, is not stored: the hash of the tip is.  And the
    index counts the blocks: after a tip of index 5 in a chain of one block
    comes index 2. *)
Lemma new_block_drops_falsy_previous_hash :
  chain Sample.ledger1 = [Sample.genesis] /\
  (exists block self',
     new_block 35293 (Some (PInt 0)) Sample.t1 Sample.ledger1 = (Return block, self') /\
     previous_hash block = PStr (hash Sample.genesis) /\
     previous_hash block <> PInt 0) /\
  (exists block self',
     new_block 35293 (Some (PStr EmptyString)) Sample.t1 Sample.ledger1
     = (Return block, self') /\
     previous_hash block = PStr (hash Sample.genesis) /\
     previous_hash block <> PStr EmptyString) /\
  (let tip := {| index := 5; timestamp := Sample.t0; transactions := [];
                 proof := 100; previous_hash := PInt 1 |} in
   let self := {| chain := [tip]; current_transactions := []; nodes := ∅ |} in
   exists block self',
     new_block 35293 None Sample.t1 self = (Return block, self') /\
     index block = 2 /\
     index block <> index tip + 1).
Proof.
  split; [reflexivity|].
  repeat apply conj; eexists _, _;
    (split; [apply new_block_run, previous_hash_or_tip_run; reflexivity|]).
  - split; [reflexivity | discriminate].
  - split; [reflexivity | vm_compute; discriminate].
  - split; [reflexivity | discriminate].
Qed.

(** C7, amended.  On a ledger whose chain is not empty, [new_block] returns
    a block and appends it to the chain; its index is the number of blocks
    plus one, which is the index of the tip plus one when the tip's index is
    the number of blocks; its transactions are the pending pool; its
    [previous_hash] is the supplied value when that value is true in the
    Python sense, and the hash of the tip when no value is supplied or the
    value supplied is 0 or the empty string. *)
Theorem new_block_appends (p : Z) (supplied : option PyVal) (now : Timestamp)
    (self : Blockchain) :
  chain self <> [] ->
  exists tip block : Block,
    last (chain self) = Some tip /\
    new_block p supplied now self
    = (Return block, {| chain := chain self ++ [block];
                        current_transactions := [];
                        nodes := nodes self |}) /\
    index block = Z.of_nat (length (chain self)) + 1 /\
    (index tip = Z.of_nat (length (chain self)) -> index block = index tip + 1) /\
    timestamp block = now /\
    transactions block = current_transactions self /\
    proof block = p /\
    (forall v, supplied = Some v -> truthy v = true -> previous_hash block = v) /\
    (forall v, supplied = Some v -> truthy v = false ->
               previous_hash block = PStr (hash tip)) /\
    (supplied = None -> previous_hash block = PStr (hash tip)).
Proof.
  intros Hne. destruct (last_nonempty _ Hne) as [tip Htip].
  exists tip. eexists. split; [exact Htip|]. split.
  - apply new_block_run. apply previous_hash_or_tip_run. exact Htip.
  - cbn [index timestamp transactions proof previous_hash]. unfold stored_previous_hash.
    repeat split; try congruence.
    + intros v -> ->. reflexivity.
    + intros v -> ->. reflexivity.
    + intros ->. reflexivity.
Qed.

Lemma new_block_appends_witness :
  exists tip block : Block,
    last (chain Sample.ledger1) = Some tip /\
    new_block 35293 (Some (PStr "00ab")) Sample.t1 Sample.ledger1
    = (Return block, {| chain := chain Sample.ledger1 ++ [block];
                        current_transactions := [];
                        nodes := nodes Sample.ledger1 |}) /\
    index block = Z.of_nat (length (chain Sample.ledger1)) + 1 /\
    (index tip = Z.of_nat (length (chain Sample.ledger1)) -> index block = index tip + 1) /\
    timestamp block = Sample.t1 /\
    transactions block = current_transactions Sample.ledger1 /\
    proof block = 35293 /\
    (forall v, Some (PStr "00ab") = Some v -> truthy v = true -> previous_hash block = v) /\
    (forall v, Some (PStr "00ab") = Some v -> truthy v = false ->
               previous_hash block = PStr (hash tip)) /\
    (Some (PStr "00ab") = None -> previous_hash block = PStr (hash tip)).
Proof. apply new_block_appends. discriminate. Defined.

Lemma new_block_cases (p : Z) (supplied : option PyVal) (now : Timestamp)
    (self : Blockchain) :
  (exists prev,
     previous_hash_or_tip supplied self = (Return prev, self) /\
     new_block p supplied now self
     = (Return {| index := Z.of_nat (length (chain self)) + 1;
                  timestamp := now;
                  transactions := current_transactions self;
                  proof := p;
                  previous_hash := prev |},
        {| chain := chain self ++
                    [{| index := Z.of_nat (length (chain self)) + 1;
                        timestamp := now;
                        transactions := current_transactions self;
                        proof := p;
                        previous_hash := prev |}];
           current_transactions := [];
           nodes := nodes self |})) \/
  (exists e, new_block p supplied now self = (Raise e, self)).
Proof.
  pose proof (previous_hash_or_tip_state supplied self) as Hstate.
  destruct (previous_hash_or_tip supplied self) as [[prev|e] s] eqn:E;
    simpl in Hstate; subst s.
  - left. exists prev. split; [reflexivity|]. apply new_block_run. exact E.
  - right. exists e. apply new_block_raise. exact E.
Qed.

Lemma register_node_run (netloc : string -> option string) (address : string)
    (self : Blockchain) :
  register_node netloc address self
  = match netloc address with
    | Some location =>
        (Return tt, {| chain := chain self;
                       current_transactions := current_transactions self;
                       nodes := {[ location ]} ∪ nodes self |})
    | None => (Raise ValueError, self)
    end.
Proof. unfold register_node. destruct (netloc address); reflexivity. Qed.

Lemma valid_chain_state (c : list Block) (self : Blockchain) :
  (valid_chain c self).2 = self.
Proof. destruct c; reflexivity. Qed.

Lemma json_length_state (body : Body) (self : Blockchain) :
  (json_length body self).2 = self.
Proof. destruct body as [|[n|] c]; reflexivity. Qed.

Lemma json_chain_state (body : Body) (self : Blockchain) :
  (json_chain body self).2 = self.
Proof. destruct body as [|n [c|]]; reflexivity. Qed.

(** The scan of the peers reads the ledger and never writes it. *)
Lemma resolve_loop_state (get : string -> Fetch) (neighbours : list string) :
  forall (max_length : Z) (new_chain : option (list Block)) (self : Blockchain),
    (resolve_loop get neighbours max_length new_chain self).2 = self.
Proof.
  induction neighbours as [|node rest IH]; intros max_length new_chain self.
  - reflexivity.
  - cbn [resolve_loop]. destruct (get node) as [|status_code body]; [reflexivity|].
    destruct (status_code =? 200); [|apply IH].
    run.
    pose proof (json_length_state body self) as Hl.
    destruct (json_length body self) as [[n|e] s]; simpl in Hl; subst s;
      [|reflexivity].
    pose proof (json_chain_state body self) as Hc.
    destruct (json_chain body self) as [[c|e] s]; simpl in Hc; subst s;
      [|reflexivity].
    destruct (max_length <? n).
    + pose proof (valid_chain_state c self) as Hv.
      destruct (valid_chain c self) as [[[|]|e] s]; simpl in Hv; subst s;
        [apply IH | apply IH | reflexivity].
    + apply IH.
Qed.

(** [resolve_conflicts] either leaves the ledger as it is or replaces its
    chain, and then reports [True]. *)
Lemma resolve_conflicts_cases (get : string -> Fetch)
    (iter : gset string -> list string) (self : Blockchain) :
  (exists out, resolve_conflicts get iter self = (out, self) /\ out <> Return true) \/
  (exists c, c <> [] /\
     resolve_conflicts get iter self
     = (Return true, {| chain := c;
                        current_transactions := current_transactions self;
                        nodes := nodes self |})).
Proof.
  unfold resolve_conflicts. run.
  pose proof (resolve_loop_state get (iter (nodes self))
                (Z.of_nat (length (chain self))) None self) as Hs.
  destruct (resolve_loop get (iter (nodes self)) (Z.of_nat (length (chain self)))
              None self) as [[[m [[|b c]|]]|e] s]; simpl in Hs; subst s; simpl.
  - left. eexists. split; [reflexivity | discriminate].
  - right. exists (b :: c). split; [discriminate | reflexivity].
  - left. eexists. split; [reflexivity | discriminate].
  - left. eexists. split; [reflexivity | discriminate].
Qed.

Lemma proof_of_work_loop_sound (last_proof : Z) (fuel : nat) :
  forall start p : Z,
    proof_of_work_loop fuel last_proof start = Some p ->
    start <= p /\ valid_proof last_proof p = true.
Proof.
  induction fuel as [|fuel IH]; intros start p H; [discriminate|].
  cbn [proof_of_work_loop] in H.
  destruct (valid_proof last_proof start) eqn:E; cbn [negb] in H.
  - injection H as <-. split; [lia | exact E].
  - apply IH in H. split; [lia | apply H].
Qed.

Lemma proof_of_work_sound (last_proof : Z) (fuel : nat) (p : Z) :
  proof_of_work fuel last_proof = Some p ->
  0 <= p /\ valid_proof last_proof p = true.
Proof. apply proof_of_work_loop_sound. Qed.

(** [mine] once the search has ended: the reward joins the pool, then the
    block is created. *)
Lemma mine_run (node : string) (fuel : nat) (now : Timestamp)
    (self : Blockchain) (tip : Block) (p : Z) :
  last (chain self) = Some tip ->
  proof_of_work fuel (proof tip) = Some p ->
  mine node fuel now self
  = Some (new_block p None now (add_transaction "0" node 1 self).2).
Proof.
  intros Htip Hp. unfold mine. rewrite last_block_run, Htip, Hp. run.
  rewrite add_transaction_run, Htip. reflexivity.
Qed.

Lemma submit_run (t : Transaction) (self : Blockchain) :
  (submit t self).2
  = {| chain := chain self;
       current_transactions := current_transactions self ++ [t];
       nodes := nodes self |}.
Proof. unfold submit. rewrite add_transaction_run. destruct t. reflexivity. Qed.

Lemma submit_then {A} (t : Transaction) (m : M A) (self : Blockchain) (tip : Block) :
  last (chain self) = Some tip ->
  (submit t;; m) self
  = m {| chain := chain self;
         current_transactions := current_transactions self ++ [t];
         nodes := nodes self |}.
Proof.
  intros Htip. unfold submit. run. rewrite add_transaction_run, Htip.
  destruct t. reflexivity.
Qed.

(** C8. [new_block] hands the whole pending pool, in order, to the block it
    creates and leaves the pool empty, so that no transaction of the block
    is still pending; the earlier blocks and the peer set stay as they
    were, and a call that raises changes nothing.  No other operation
    empties the pool: [add_transaction] extends it, [register_node],
    [valid_chain] and [resolve_conflicts] keep it.  After three submissions
    to a ledger with an empty pool, mining (whenever a valid proof exists
    for the tip) creates a block with those three transactions followed by
    the reward, and leaves the pool empty. *)
Theorem pending_pool_moves_into_block :
  (forall p supplied now self block self',
     new_block p supplied now self = (Return block, self') ->
     transactions block = current_transactions self /\
     current_transactions self' = [] /\
     (forall t, t ∈ transactions block -> t ∉ current_transactions self') /\
     chain self' = chain self ++ [block] /\
     nodes self' = nodes self) /\
  (forall p supplied now self e self',
     new_block p supplied now self = (Raise e, self') -> self' = self) /\
  (forall p supplied now self,
     chain self <> [] ->
     exists block self', new_block p supplied now self = (Return block, self')) /\
  (forall s r a self,
     let self' := (add_transaction s r a self).2 in
     current_transactions self'
     = current_transactions self ++ [{| sender := s; recipient := r; amount := a |}] /\
     chain self' = chain self /\ nodes self' = nodes self) /\
  (forall netloc address self,
     let self' := (register_node netloc address self).2 in
     current_transactions self' = current_transactions self /\
     chain self' = chain self) /\
  (forall c self, (valid_chain c self).2 = self) /\
  (forall get iter self,
     let self' := (resolve_conflicts get iter self).2 in
     current_transactions self' = current_transactions self /\
     nodes self' = nodes self) /\
  (forall node now self tip a b c,
     last (chain self) = Some tip ->
     current_transactions self = [] ->
     let submitted := ((submit a;; submit b;; submit c) self).2 in
     (forall fuel out self',
        mine node fuel now submitted = Some (out, self') ->
        exists block,
          out = Return block /\
          transactions block = [a; b; c; reward node] /\
          current_transactions self' = [] /\
          chain self' = chain self ++ [block] /\
          nodes self' = nodes self) /\
     (forall p, 0 <= p -> valid_proof (proof tip) p = true ->
        exists fuel out self', mine node fuel now submitted = Some (out, self'))).
Proof.
  repeat apply conj.
  - intros p supplied now self block self' H.
    destruct (new_block_cases p supplied now self) as [(prev & _ & E)|(e & E)];
      rewrite E in H; [|discriminate].
    injection H as <- <-. cbn [transactions current_transactions chain nodes].
    repeat split. intros t _ Hin. inversion Hin.
  - intros p supplied now self e self' H.
    destruct (new_block_cases p supplied now self) as [(prev & _ & E)|(e' & E)];
      rewrite E in H; [discriminate|].
    injection H as _ <-. reflexivity.
  - intros p supplied now self Hne.
    destruct (last_nonempty _ Hne) as [tip Htip].
    eexists _, _. apply new_block_run. apply previous_hash_or_tip_run. exact Htip.
  - intros s r a self. rewrite add_transaction_run. repeat split.
  - intros netloc address self. rewrite register_node_run.
    destruct (netloc address); repeat split.
  - apply valid_chain_state.
  - intros get iter self.
    destruct (resolve_conflicts_cases get iter self) as [(out & E & _)|(c & _ & E)];
      rewrite E; repeat split.
  - intros node now self tip a b c Htip Hpool submitted.
    assert (Hsubmitted : submitted = {| chain := chain self;
                                        current_transactions := [a; b; c];
                                        nodes := nodes self |}).
    { subst submitted.
      rewrite (submit_then a _ self tip Htip).
      erewrite (submit_then b) by exact Htip.
      rewrite submit_run. cbn [chain current_transactions nodes].
      rewrite Hpool. reflexivity. }
    assert (Htip' : last (chain submitted) = Some tip)
      by (rewrite Hsubmitted; exact Htip).
    split.
    + intros fuel out self' H.
      destruct (proof_of_work fuel (proof tip)) as [q|] eqn:Hq.
      * rewrite (mine_run node fuel now submitted tip q Htip' Hq) in H.
        rewrite add_transaction_run, Hsubmitted in H.
        cbn [snd chain current_transactions nodes] in H.
        erewrite new_block_run in H
          by (apply (previous_hash_or_tip_run None _ tip); exact Htip).
        injection H as <- <-. eexists. split; [reflexivity|].
        cbn [transactions current_transactions chain nodes]. repeat split.
      * unfold mine in H. rewrite last_block_run, Htip', Hq in H. discriminate.
    + intros p Hp Hv.
      destruct (proof_of_work_returns (proof tip) p Hp Hv) as (q & _ & _ & _ & Hrun).
      exists (S (Z.to_nat q)).
      rewrite (mine_run node _ now submitted tip q Htip').
      * destruct (new_block q None now _) as [out self']. eauto.
      * rewrite Hrun. case_decide; [reflexivity | lia].
Qed.

Lemma pending_pool_moves_into_block_witness :
  let submitted :=
    ((submit Sample.alice_pays_bob;; submit Sample.bob_pays_carol;;
      submit Sample.carol_pays_alice) Sample.ledger1).2 in
  exists fuel block self',
    mine Sample.node_id fuel Sample.t1 submitted = Some (Return block, self') /\
    transactions block
    = [Sample.alice_pays_bob; Sample.bob_pays_carol; Sample.carol_pays_alice;
       reward Sample.node_id] /\
    current_transactions self' = [] /\
    chain self' = chain Sample.ledger1 ++ [block] /\
    nodes self' = nodes Sample.ledger1.
Proof.
  destruct pending_pool_moves_into_block as (_ & _ & _ & _ & _ & _ & _ & H).
  destruct (H Sample.node_id Sample.t1 Sample.ledger1 Sample.genesis
              Sample.alice_pays_bob Sample.bob_pays_carol Sample.carol_pays_alice
              eq_refl eq_refl) as [Hblock Hreturns].
  destruct (Hreturns 35293) as (fuel & out & self' & Hmine);
    [lia | vm_compute; reflexivity |].
  destruct (Hblock fuel out self' Hmine) as (block & -> & Hfacts).
  exists fuel, block, self'. split; [exact Hmine | exact Hfacts].
Defined.

(** ** Chains built by mining *)

Lemma well_linked_snoc (c : list Block) (tip b : Block) :
  well_linked c -> last c = Some tip -> linked tip b -> well_linked (c ++ [b]).
Proof.
  intros Hc Htip Hb i prev cur H1 H2.
  rewrite last_lookup in Htip.
  assert (S i < length c \/ S i = length c \/ length c < S i)%nat as [Hi|[Hi|Hi]] by lia.
  - rewrite lookup_app_l in H1, H2 by lia. apply (Hc i); assumption.
  - rewrite lookup_app_l in H1 by lia.
    rewrite lookup_app_r in H2 by lia.
    rewrite Hi, Nat.sub_diag in H2. injection H2 as <-.
    rewrite <- Hi in Htip. simpl in Htip. rewrite Htip in H1. injection H1 as <-.
    exact Hb.
  - rewrite lookup_app_r in H2 by lia.
    destruct (S i - length c)%nat as [|k] eqn:E; [lia|]. discriminate.
Qed.

Lemma contiguous_snoc (c : list Block) (b : Block) :
  contiguous c -> index b = Z.of_nat (length c) + 1 -> contiguous (c ++ [b]).
Proof.
  intros Hc Hb i b' H.
  assert (i < length c \/ i = length c \/ length c < i)%nat as [Hi|[Hi|Hi]] by lia.
  - rewrite lookup_app_l in H by lia. apply Hc. exact H.
  - rewrite lookup_app_r in H by lia. rewrite Hi, Nat.sub_diag in H.
    injection H as <-. rewrite Hi. exact Hb.
  - rewrite lookup_app_r in H by lia.
    destruct (i - length c)%nat as [|k] eqn:E; [lia|]. discriminate.
Qed.

Lemma valid_chain_of_well_linked (c : list Block) (self : Blockchain) :
  c <> [] -> well_linked c -> valid_chain c self = (Return true, self).
Proof.
  intros Hne Hc. destruct c as [|first rest]; [congruence|].
  unfold valid_chain. run. f_equal. f_equal. apply valid_links_spec. exact Hc.
Qed.

Lemma built_invariant (self : Blockchain) :
  built self ->
  chain self <> [] /\ well_linked (chain self) /\ contiguous (chain self).
Proof.
  induction 1 as [now | self s r a Hbuilt IH | self tip fuel p now Hbuilt IH Htip Hp].
  - rewrite fresh_ledger_run. cbn [chain]. split; [discriminate|]. split.
    + intros [|i] prev cur H1 H2; simpl in *; discriminate.
    + intros [|i] b H; simpl in H; [|discriminate]. injection H as <-. reflexivity.
  - rewrite add_transaction_run. exact IH.
  - destruct IH as (Hne & Hlinked & Hcontiguous).
    rewrite (new_block_run p None now self _ (previous_hash_or_tip_run None self tip Htip)).
    cbn [snd chain]. split; [|split].
    + intros H. apply app_eq_nil in H. destruct H as [_ H]. discriminate.
    + apply (well_linked_snoc _ tip); [exact Hlinked | exact Htip |].
      split; [reflexivity|]. cbn [proof]. apply (proof_of_work_sound _ fuel). exact Hp.
    + apply contiguous_snoc; [exact Hcontiguous | reflexivity].
Qed.

(** A request to [mine] that returns leaves a built ledger built. *)
Lemma mine_built (node : string) (fuel : nat) (now : Timestamp)
    (self : Blockchain) (out : Outcome Block) (self' : Blockchain) :
  built self -> mine node fuel now self = Some (out, self') -> built self'.
Proof.
  intros Hbuilt H.
  destruct (built_invariant self Hbuilt) as (Hne & _).
  destruct (last_nonempty _ Hne) as [tip Htip].
  destruct (proof_of_work fuel (proof tip)) as [p|] eqn:Hp.
  - rewrite (mine_run node fuel now self tip p Htip Hp) in H.
    injection H as H. rewrite (surjective_pairing (new_block _ _ _ _)) in H.
    injection H as _ <-.
    apply (built_mined _ tip fuel p).
    + apply built_submit. exact Hbuilt.
    + rewrite add_transaction_run. exact Htip.
    + exact Hp.
  - unfold mine in H. rewrite last_block_run, Htip, Hp in H. discriminate.
Qed.

(** C6. A chain built from a fresh ledger by submitting transactions and
    mining passes [valid_chain]: every block after the first holds the hash
    of the block before it and a proof valid against that block's proof, and
    the indices run 1, 2, 3, ... *)
Theorem built_chain_valid (self : Blockchain) :
  built self ->
  valid_chain (chain self) self = (Return true, self) /\
  (forall (i : nat) (prev cur : Block),
     chain self !! i = Some prev -> chain self !! S i = Some cur ->
     previous_hash cur = PStr (hash prev) /\
     valid_proof (proof prev) (proof cur) = true) /\
  (forall (i : nat) (b : Block),
     chain self !! i = Some b -> index b = Z.of_nat i + 1).
Proof.
  intros Hbuilt. destruct (built_invariant self Hbuilt) as (Hne & Hlinked & Hcontiguous).
  split; [|split].
  - apply valid_chain_of_well_linked; assumption.
  - exact Hlinked.
  - exact Hcontiguous.
Qed.

Lemma built_chain_valid_witness :
  exists self : Blockchain,
    built self /\
    length (chain self) = 2%nat /\
    current_transactions self = [] /\
    valid_chain (chain self) self = (Return true, self) /\
    (forall (i : nat) (prev cur : Block),
       chain self !! i = Some prev -> chain self !! S i = Some cur ->
       previous_hash cur = PStr (hash prev) /\
       valid_proof (proof prev) (proof cur) = true) /\
    (forall (i : nat) (b : Block),
       chain self !! i = Some b -> index b = Z.of_nat i + 1).
Proof.
  destruct (proof_of_work_returns 100 35293) as (q & _ & _ & _ & Hrun);
    [lia | vm_compute; reflexivity |].
  pose proof (Hrun (S (Z.to_nat q))) as Hq.
  destruct (decide (Z.to_nat q < S (Z.to_nat q))%nat); [|lia].
  pose (tx := (submit Sample.alice_pays_bob;; submit Sample.bob_pays_carol) Sample.ledger1).
  assert (Hmine : exists out self',
             mine Sample.node_id (S (Z.to_nat q)) Sample.t1 tx.2 = Some (out, self') /\
             length (chain self') = 2%nat /\ current_transactions self' = []).
  { erewrite mine_run; [|reflexivity|exact Hq].
    eexists _, _. split.
    - erewrite new_block_run; [reflexivity|].
      apply (previous_hash_or_tip_run None _ Sample.genesis). reflexivity.
    - split; reflexivity. }
  destruct Hmine as (out & self' & Hmine & Hlen & Hpool).
  exists self'.
  assert (Hbuilt : built self').
  { apply (mine_built _ _ _ _ _ _ (built_submit _ _ _ _ (built_submit _ _ _ _ (built_fresh Sample.t0))) Hmine). }
  split; [exact Hbuilt|]. split; [exact Hlen|]. split; [exact Hpool|].
  apply built_chain_valid. exact Hbuilt.
Defined.

(** ** Consensus *)

Lemma accepted_passes (c : list Block) : accepted c <-> passes c = true.
Proof.
  unfold accepted. destruct c as [|first rest]; simpl.
  - split; [|discriminate]. intros H. specialize (H empty_ledger). discriminate.
  - unfold valid_chain. run. split.
    + intros H. specialize (H empty_ledger). congruence.
    + intros -> self. reflexivity.
Qed.

(** Over peers that answer, the scan is a fold of [pick] over what they
    offer, continued on the peers that follow. *)
Lemma resolve_loop_app (get : string -> Fetch) (before rest : list string) :
  forall (max_length : Z) (new_chain : option (list Block)) (self : Blockchain),
    (forall node, node ∈ before -> answers (get node)) ->
    resolve_loop get (before ++ rest) max_length new_chain self
    = resolve_loop get rest
        (fold_left pick (candidates get before) (max_length, new_chain)).1
        (fold_left pick (candidates get before) (max_length, new_chain)).2
        self.
Proof.
  induction before as [|node before IH]; intros max_length new_chain self Hanswers.
  - reflexivity.
  - assert (Hnode : answers (get node)) by (apply Hanswers; left).
    assert (Hrest : forall n, n ∈ before -> answers (get n))
      by (intros n Hn; apply Hanswers; right; exact Hn).
    cbn [app resolve_loop]. unfold candidates. cbn [omap list_omap].
    fold (candidates get before).
    destruct (get node) as [|status_code body]; [destruct Hnode|].
    cbn [payload answers] in *.
    destruct (status_code =? 200) eqn:Hstatus.
    + destruct Hnode as (n & c & -> & Hc); [lia|].
      cbn [payload]. run. cbn [json_length json_chain]. run.
      cbn [fold_left]. unfold pick at 2 4. cbn [fst snd].
      destruct c as [|first c]; [congruence|]. cbn [passes valid_chain].
      destruct (max_length <? n); cbn [andb]; run.
      * destruct (valid_links first c); apply IH; exact Hrest.
      * apply IH. exact Hrest.
    + destruct body as [|[n|] [c|]]; try rewrite Hstatus; apply IH; exact Hrest.
Qed.

Lemma resolve_loop_fold (get : string -> Fetch) (order : list string)
    (max_length : Z) (new_chain : option (list Block)) (self : Blockchain) :
  (forall node, node ∈ order -> answers (get node)) ->
  resolve_loop get order max_length new_chain self
  = (Return (fold_left pick (candidates get order) (max_length, new_chain)), self).
Proof.
  intros H. rewrite <- (app_nil_r order) at 1.
  rewrite resolve_loop_app by exact H. cbn [resolve_loop]. run.
  destruct (fold_left pick (candidates get order) (max_length, new_chain)).
  reflexivity.
Qed.

(** The fold keeps the best so far when no candidate beats it; otherwise it
    ends on the first candidate of greatest length among the valid ones that
    beat it. *)
Lemma fold_pick_spec (cands : list (Z * list Block)) :
  forall (m : Z) (nc : option (list Block)),
    (fold_left pick cands (m, nc) = (m, nc) /\
     forall cand, cand ∈ cands -> ~ (m < cand.1 /\ passes cand.2 = true)) \/
    (exists before n c after,
       cands = before ++ (n, c) :: after /\
       m < n /\ passes c = true /\
       (forall cand, cand ∈ before -> passes cand.2 = true -> cand.1 < n) /\
       (forall cand, cand ∈ after -> passes cand.2 = true -> cand.1 <= n) /\
       fold_left pick cands (m, nc) = (n, Some c)).
Proof.
  induction cands as [|[n c] cands IH]; intros m nc.
  - left. split; [reflexivity|]. intros cand Hin. inversion Hin.
  - cbn [fold_left]. unfold pick at 2 4. cbn [fst snd].
    destruct ((m <? n) && passes c) eqn:E.
    + apply andb_true_iff in E. destruct E as [Hlt Hv]. apply Z.ltb_lt in Hlt.
      destruct (IH n (Some c))
        as [[Hfold Hnone]|(before & n' & c' & after & -> & Hlt' & Hv' & Hb & Ha & Hfold)].
      * right. exists [], n, c, cands. repeat split; try assumption.
        -- intros cand Hin. inversion Hin.
        -- intros cand Hin Hcand.
           destruct (Z.le_gt_cases (cand.1) n) as [Hle|Hgt]; [exact Hle|].
           exfalso. apply (Hnone cand Hin). split; [lia | exact Hcand].
      * right. exists ((n, c) :: before), n', c', after.
        repeat split; try assumption; try lia.
        intros cand Hin Hcand. apply elem_of_cons in Hin.
        destruct Hin as [->|Hin]; [simpl; lia | apply Hb; assumption].
    + assert (Hno : ~ (m < n /\ passes c = true)).
      { intros [Hlt Hv]. apply Z.ltb_lt in Hlt. rewrite Hlt, Hv in E. discriminate. }
      destruct (IH m nc)
        as [[Hfold Hnone]|(before & n' & c' & after & -> & Hlt' & Hv' & Hb & Ha & Hfold)].
      * left. split; [exact Hfold|].
        intros cand Hin. apply elem_of_cons in Hin.
        destruct Hin as [->|Hin]; [exact Hno | apply Hnone; exact Hin].
      * right. exists ((n, c) :: before), n', c', after.
        repeat split; try assumption.
        intros cand Hin Hcand. apply elem_of_cons in Hin.
        destruct Hin as [->|Hin]; [|apply Hb; assumption].
        simpl in *. destruct (Z.lt_ge_cases m n) as [Hmn|Hmn]; [|lia].
        exfalso. apply Hno. split; assumption.
Qed.

Lemma resolve_conflicts_fold (get : string -> Fetch)
    (iter : gset string -> list string) (self : Blockchain) :
  (forall node, node ∈ iter (nodes self) -> answers (get node)) ->
  resolve_conflicts get iter self
  = match (fold_left pick (candidates get (iter (nodes self)))
             (Z.of_nat (length (chain self)), None)).2 with
    | Some (b :: c) => (Return true, with_chain self (b :: c))
    | _ => (Return false, self)
    end.
Proof.
  intros H. unfold resolve_conflicts. run.
  rewrite resolve_loop_fold by exact H.
  destruct (fold_left pick _ _) as [m [[|b c]|]]; reflexivity.
Qed.

(** C1 fails as stated.  The peer visited first serves a valid chain of
    five blocks, two more than the local chain; the second peer cannot be
    reached, or reports nine blocks and sends none.  The resolution then
    neither adopts the five blocks nor reports that the chain was kept: it
    raises, and the longer valid chain it had found is dropped. *)
Lemma resolve_conflicts_raises_after_longer_chain :
  let lost node := if String.eqb node Sample.peer5 then full_chain Sample.ledger5
                   else Unreachable in
  let hollow node := if String.eqb node Sample.peer5 then full_chain Sample.ledger5
                     else Response 200 (Document (Some 9) (Some [])) in
  elements (nodes Sample.replica) = [Sample.peer5; Sample.peer4] /\
  length (chain Sample.replica) = 3%nat /\
  length (chain Sample.ledger5) = 5%nat /\
  valid_chain (chain Sample.ledger5) Sample.replica = (Return true, Sample.replica) /\
  resolve_conflicts lost elements Sample.replica
  = (Raise ConnectionError, Sample.replica) /\
  resolve_conflicts hollow elements Sample.replica
  = (Raise IndexError, Sample.replica).
Proof. vm_compute. repeat split. Qed.

(** C1, amended.  When every peer answers (with a length and a non-empty
    chain under status 200), [resolve_conflicts] either finds no offer that is both
    longer than the local chain and valid, reports [False] and leaves the
    ledger as it was; or it reports [True] and the local chain becomes the
    chain of the first offer of greatest reported length among the valid
    offers longer than the local chain.  Offers no longer than the local
    chain never replace it. *)
Theorem resolve_conflicts_longest_valid (get : string -> Fetch)
    (iter : gset string -> list string) (self : Blockchain) :
  let offers := candidates get (iter (nodes self)) in
  let local := Z.of_nat (length (chain self)) in
  (forall node, node ∈ iter (nodes self) -> answers (get node)) ->
  resolve_loop get (iter (nodes self)) local None self
  = (Return (fold_left pick offers (local, None)), self) /\
  (((forall offer, offer ∈ offers -> ~ (local < offer.1 /\ accepted offer.2)) /\
    resolve_conflicts get iter self = (Return false, self)) \/
   (exists before n c after,
      offers = before ++ (n, c) :: after /\
      local < n /\ accepted c /\
      (forall offer, offer ∈ before -> accepted offer.2 -> offer.1 < n) /\
      (forall offer, offer ∈ after -> accepted offer.2 -> offer.1 <= n) /\
      resolve_conflicts get iter self = (Return true, with_chain self c))) /\
  ((forall offer, offer ∈ offers -> offer.1 <= local) ->
   resolve_conflicts get iter self = (Return false, self)).
Proof.
  intros offers local Hanswers.
  split; [apply resolve_loop_fold; exact Hanswers|].
  rewrite (resolve_conflicts_fold get iter self Hanswers).
  fold offers local.
  destruct (fold_pick_spec offers local None)
    as [[Hfold Hnone]|(before & n & c & after & Heq & Hlt & Hv & Hb & Ha & Hfold)];
    rewrite Hfold; cbn [snd].
  - split; [|reflexivity]. left. split; [|reflexivity].
    intros offer Hin [Hlt Hv]. apply (Hnone offer Hin).
    split; [exact Hlt | apply accepted_passes; exact Hv].
  - assert (Hc : exists b r, c = b :: r).
    { destruct c as [|b r]; [discriminate | eauto]. }
    destruct Hc as (b & r & ->). split.
    + right. exists before, n, (b :: r), after.
      split; [exact Heq|]. split; [exact Hlt|].
      split; [apply accepted_passes; exact Hv|].
      split; [|split; [|reflexivity]].
      * intros offer Hin Hacc. apply Hb; [exact Hin | apply accepted_passes; exact Hacc].
      * intros offer Hin Hacc. apply Ha; [exact Hin | apply accepted_passes; exact Hacc].
    + intros Hshort. exfalso.
      assert (Hin : (n, b :: r) ∈ offers).
      { rewrite Heq. apply elem_of_app. right. left. }
      specialize (Hshort _ Hin). simpl in Hshort. lia.
Qed.

(** When every offer reports the number of blocks it carries, as
    [full_chain] does, a replacement adopts a chain with more blocks than
    the local one and at least as many as any valid chain on offer. *)
Lemma resolve_conflicts_truthful_lengths (get : string -> Fetch)
    (iter : gset string -> list string) (self self' : Blockchain) :
  let offers := candidates get (iter (nodes self)) in
  (forall node, node ∈ iter (nodes self) -> answers (get node)) ->
  (forall offer, offer ∈ offers -> offer.1 = Z.of_nat (length offer.2)) ->
  resolve_conflicts get iter self = (Return true, self') ->
  (length (chain self) < length (chain self'))%nat /\
  forall offer, offer ∈ offers -> accepted offer.2 ->
                (length offer.2 <= length (chain self'))%nat.
Proof.
  intros offers Hanswers Htruthful H.
  rewrite (resolve_conflicts_fold get iter self Hanswers) in H. fold offers in H.
  destruct (fold_pick_spec offers (Z.of_nat (length (chain self))) None)
    as [[Hfold _]|(before & n & c & after & Heq & Hlt & Hv & Hb & Ha & Hfold)];
    rewrite Hfold in H; cbn [snd] in H; [discriminate|].
  destruct c as [|b r]; [discriminate|]. injection H as <-. cbn [with_chain chain].
  assert (Hn : n = Z.of_nat (length (b :: r))).
  { apply (Htruthful (n, b :: r)). rewrite Heq. apply elem_of_app. right. left. }
  split; [lia|].
  intros offer Hin Hacc. apply accepted_passes in Hacc.
  pose proof (Htruthful offer Hin) as Hoffer.
  rewrite Heq in Hin. apply elem_of_app in Hin.
  destruct Hin as [Hin|Hin]; [specialize (Hb offer Hin Hacc); lia|].
  apply elem_of_cons in Hin. destruct Hin as [->|Hin]; [simpl; lia|].
  specialize (Ha offer Hin Hacc). lia.
Qed.

Lemma sample_order :
  elements (nodes Sample.replica) = [Sample.peer5; Sample.peer4].
Proof. vm_compute. reflexivity. Qed.

Lemma sample_network_answers (node : string) :
  node ∈ elements (nodes Sample.replica) -> answers (Sample.network node).
Proof.
  rewrite sample_order. intros Hin.
  apply elem_of_cons in Hin. destruct Hin as [->|Hin];
    [|apply elem_of_cons in Hin; destruct Hin as [->|Hin]; [|inversion Hin]];
    intros _; eexists _, _; (split; [reflexivity | discriminate]).
Qed.

(** The example of the specification: a local chain of three blocks, peers
    with valid chains of four and five blocks; the five blocks are adopted. *)
Example resolve_conflicts_sample :
  length (chain Sample.replica) = 3%nat /\
  candidates Sample.network (elements (nodes Sample.replica))
  = [(5, chain Sample.ledger5); (4, chain Sample.ledger4)] /\
  passes (chain Sample.ledger4) = true /\
  passes (chain Sample.ledger5) = true /\
  resolve_conflicts Sample.network elements Sample.replica
  = (Return true, with_chain Sample.replica (chain Sample.ledger5)).
Proof. vm_compute. repeat split. Qed.

(** Peers that offer nothing longer than the local chain: it is kept. *)
Example resolve_conflicts_sample_kept :
  let get node := if String.eqb node Sample.peer4 then full_chain Sample.ledger2
                  else full_chain Sample.ledger3 in
  resolve_conflicts get elements Sample.replica = (Return false, Sample.replica).
Proof. vm_compute. reflexivity. Qed.

(** A peer that runs this program on a built ledger answers, reports the
    number of blocks it sends, and sends a chain that passes. *)
Lemma full_chain_built (peer : Blockchain) :
  built peer ->
  answers (full_chain peer) /\
  payload (full_chain peer) = Some (Z.of_nat (length (chain peer)), chain peer) /\
  accepted (chain peer).
Proof.
  intros Hbuilt. destruct (built_invariant peer Hbuilt) as (Hne & Hlinked & _).
  split; [|split].
  - intros _. eexists _, _. split; [reflexivity | exact Hne].
  - reflexivity.
  - intros self. apply valid_chain_of_well_linked; assumption.
Qed.

Lemma resolve_conflicts_longest_valid_witness :
  let offers := candidates Sample.network (elements (nodes Sample.replica)) in
  let local := Z.of_nat (length (chain Sample.replica)) in
  resolve_loop Sample.network (elements (nodes Sample.replica)) local None Sample.replica
  = (Return (fold_left pick offers (local, None)), Sample.replica) /\
  (((forall offer, offer ∈ offers -> ~ (local < offer.1 /\ accepted offer.2)) /\
    resolve_conflicts Sample.network elements Sample.replica
    = (Return false, Sample.replica)) \/
   (exists before n c after,
      offers = before ++ (n, c) :: after /\
      local < n /\ accepted c /\
      (forall offer, offer ∈ before -> accepted offer.2 -> offer.1 < n) /\
      (forall offer, offer ∈ after -> accepted offer.2 -> offer.1 <= n) /\
      resolve_conflicts Sample.network elements Sample.replica
      = (Return true, with_chain Sample.replica c))) /\
  ((forall offer, offer ∈ offers -> offer.1 <= local) ->
   resolve_conflicts Sample.network elements Sample.replica
   = (Return false, Sample.replica)).
Proof.
  apply (resolve_conflicts_longest_valid Sample.network elements Sample.replica).
  exact sample_network_answers.
Defined.

(** C9. The comparison uses the length a peer reports, not the number of
    blocks it sends: a single peer that reports more blocks than the local
    chain has, and sends a valid chain with fewer, has its chain adopted. *)
Theorem resolve_conflicts_reported_length (get : string -> Fetch)
    (iter : gset string -> list string) (self : Blockchain)
    (node : string) (n : Z) (c : list Block) :
  iter (nodes self) = [node] ->
  get node = Response 200 (Document (Some n) (Some c)) ->
  Z.of_nat (length (chain self)) < n ->
  accepted c ->
  (length c < length (chain self))%nat ->
  exists self',
    resolve_conflicts get iter self = (Return true, self') /\
    chain self' = c /\
    (length (chain self') < length (chain self))%nat.
Proof.
  intros Horder Hget Hlt Hacc Hshort.
  exists (with_chain self c). split; [|split; [reflexivity | exact Hshort]].
  apply accepted_passes in Hacc.
  rewrite resolve_conflicts_fold.
  - rewrite Horder. unfold candidates. cbn [omap list_omap]. rewrite Hget.
    cbn [payload Z.eqb Pos.eqb fold_left]. unfold pick. cbn [fst snd].
    apply Z.ltb_lt in Hlt. rewrite Hlt, Hacc. cbn [andb snd].
    destruct c as [|b r]; [discriminate | reflexivity].
  - rewrite Horder. intros node' Hin. apply list_elem_of_singleton in Hin. subst node'.
    rewrite Hget. intros _. exists n, c. split; [reflexivity|].
    destruct c; [discriminate | discriminate].
Qed.

Lemma resolve_conflicts_reported_length_witness :
  let self := (register_node Sample.netloc Sample.address4 Sample.ledger3).2 in
  length (chain self) = 3%nat /\
  length (chain Sample.ledger1) = 1%nat /\
  exists self',
    resolve_conflicts Sample.boaster elements self = (Return true, self') /\
    chain self' = chain Sample.ledger1 /\
    (length (chain self') < length (chain self))%nat.
Proof.
  split; [reflexivity|]. split; [reflexivity|].
  apply (resolve_conflicts_reported_length Sample.boaster elements _ Sample.peer4 9).
  - vm_compute. reflexivity.
  - reflexivity.
  - vm_compute. reflexivity.
  - intros self. reflexivity.
  - vm_compute. lia.
Defined.

(** A peer whose status is not 200 is passed over. *)
Lemma resolve_loop_skip (get : string -> Fetch) (node : string)
    (status_code : Z) (body : Body) (before after : list string) :
  get node = Response status_code body -> status_code <> 200 ->
  forall (max_length : Z) (new_chain : option (list Block)) (self : Blockchain),
    resolve_loop get (before ++ node :: after) max_length new_chain self
    = resolve_loop get (before ++ after) max_length new_chain self.
Proof.
  intros Hget Hstatus.
  induction before as [|peer before IH]; intros max_length new_chain self.
  - cbn [app resolve_loop]. rewrite Hget.
    destruct (Z.eqb_spec status_code 200); [contradiction | reflexivity].
  - cbn [app resolve_loop]. destruct (get peer) as [|status_code' body']; [reflexivity|].
    destruct (status_code' =? 200); [|apply IH].
    run.
    pose proof (json_length_state body' self) as Hl.
    destruct (json_length body' self) as [[n|e] s]; simpl in Hl; subst s;
      [|reflexivity].
    pose proof (json_chain_state body' self) as Hc.
    destruct (json_chain body' self) as [[c|e] s]; simpl in Hc; subst s;
      [|reflexivity].
    destruct (max_length <? n).
    + pose proof (valid_chain_state c self) as Hv.
      destruct (valid_chain c self) as [[[|]|e] s]; simpl in Hv; subst s;
        [apply IH | apply IH | reflexivity].
    + apply IH.
Qed.

Lemma resolve_loop_failure (get : string -> Fetch) (node : string) (e : exn)
    (after : list string) (max_length : Z) (new_chain : option (list Block))
    (self : Blockchain) :
  failure (get node) = Some e ->
  resolve_loop get (node :: after) max_length new_chain self = (Raise e, self).
Proof.
  intros H. cbn [resolve_loop]. unfold failure in H.
  destruct (get node) as [|status_code body]; [injection H as <-; reflexivity|].
  destruct (status_code =? 200); [|discriminate].
  destruct body as [|[n|] [c|]]; try discriminate; injection H as <-; reflexivity.
Qed.

(** A peer that reports a long chain and sends none makes [chain[0]] raise. *)
Example resolve_conflicts_empty_chain :
  resolve_conflicts (fun _ => Response 200 (Document (Some 9) (Some []))) elements
    Sample.replica
  = (Raise IndexError, Sample.replica).
Proof. vm_compute. reflexivity. Qed.

(** C3 fails as stated: a peer that cannot be reached, or that answers 200
    with a body that is not JSON, is not passed over; the exception leaves
    [resolve_conflicts]. *)
Lemma resolve_conflicts_unreachable_peer_raises :
  resolve_conflicts Sample.silent elements Sample.replica
  = (Raise ConnectionError, Sample.replica) /\
  resolve_conflicts Sample.garbled elements Sample.replica
  = (Raise JSONDecodeError, Sample.replica).
Proof. split; vm_compute; reflexivity. Qed.

(** C3, amended.  A peer that answers with a status other than 200 is
    passed over in silence: the outcome and the ledger are those obtained
    without it.  A peer that cannot be reached, or that answers 200 with a
    body that is not JSON or lacks a key, ends the resolution with its
    exception once the peers before it have answered.  However the
    resolution fails, the ledger is left as it was. *)
Theorem resolve_conflicts_skips_other_status (get : string -> Fetch)
    (iter : gset string -> list string) (self : Blockchain) :
  (forall before node after status_code body,
     iter (nodes self) = before ++ node :: after ->
     get node = Response status_code body -> status_code <> 200 ->
     resolve_conflicts get iter self
     = resolve_conflicts get (fun _ => before ++ after) self) /\
  (forall before node after e,
     iter (nodes self) = before ++ node :: after ->
     (forall peer, peer ∈ before -> answers (get peer)) ->
     failure (get node) = Some e ->
     resolve_conflicts get iter self = (Raise e, self)) /\
  (forall e self',
     resolve_conflicts get iter self = (Raise e, self') -> self' = self).
Proof.
  split; [|split].
  - intros before node after status_code body Horder Hget Hstatus.
    unfold resolve_conflicts. run. rewrite Horder.
    rewrite (resolve_loop_skip get node status_code body before after Hget Hstatus).
    reflexivity.
  - intros before node after e Horder Hanswers Hfail.
    unfold resolve_conflicts. run. rewrite Horder.
    rewrite resolve_loop_app by exact Hanswers.
    rewrite (resolve_loop_failure get node e after _ _ self Hfail). reflexivity.
  - intros e self' H.
    destruct (resolve_conflicts_cases get iter self) as [(out & E & _)|(c & _ & E)];
      rewrite E in H; [injection H as _ <-; reflexivity | discriminate].
Qed.

Lemma resolve_conflicts_skips_other_status_witness :
  Sample.flaky Sample.peer4 = Response 503 NotJSON /\
  resolve_conflicts Sample.flaky elements Sample.replica
  = resolve_conflicts Sample.flaky (fun _ => [Sample.peer5]) Sample.replica /\
  resolve_conflicts Sample.flaky elements Sample.replica
  = (Return true, with_chain Sample.replica (chain Sample.ledger5)).
Proof.
  split; [reflexivity|]. split; [|vm_compute; reflexivity].
  destruct (resolve_conflicts_skips_other_status Sample.flaky elements Sample.replica)
    as (Hskip & _ & _).
  apply (Hskip [Sample.peer5] Sample.peer4 [] 503 NotJSON).
  - exact sample_order.
  - reflexivity.
  - lia.
Defined.

(** * Further properties of the code *)

(** ** Digests *)

Lemma string_length_app (s1 s2 : string) :
  String.length (s1 +:+ s2) = (String.length s1 + String.length s2)%nat.
Proof. induction s1 as [|c s1 IH]; simpl; [reflexivity | rewrite IH; reflexivity]. Qed.

Lemma chars_app (s1 s2 : string) :
  list_ascii_of_string (s1 +:+ s2)
  = list_ascii_of_string s1 ++ list_ascii_of_string s2.
Proof. induction s1 as [|c s1 IH]; simpl; [reflexivity | rewrite IH; reflexivity]. Qed.

Lemma hex_digit_char (d : Z) : 0 <= d < 16 -> hex_char (SHA256.hex_digit d).
Proof.
  intros Hd.
  assert (d = 0 \/ d = 1 \/ d = 2 \/ d = 3 \/ d = 4 \/ d = 5 \/ d = 6 \/ d = 7 \/
          d = 8 \/ d = 9 \/ d = 10 \/ d = 11 \/ d = 12 \/ d = 13 \/ d = 14 \/ d = 15)
    as H by lia.
  unfold hex_char.
  repeat (destruct H as [->|H]; [vm_compute; tauto|]).
  subst d. vm_compute. tauto.
Qed.

Lemma hex_format (n : nat) (x : Z) :
  String.length (SHA256.hex n x) = n /\
  Forall hex_char (list_ascii_of_string (SHA256.hex n x)).
Proof.
  induction n as [|n [IHlen IHchars]]; [split; [reflexivity | constructor]|].
  cbn [SHA256.hex String.length list_ascii_of_string]. split.
  - rewrite IHlen. reflexivity.
  - constructor; [|exact IHchars].
    apply hex_digit_char.
    change 15 with (Z.ones 4). rewrite Z.land_ones by lia.
    apply Z.mod_pos_bound. lia.
Qed.

Lemma step_length (v : list Z) (kw : Z * Z) :
  length (SHA256.step v kw) = length v.
Proof.
  unfold SHA256.step.
  destruct v as [|a [|b [|c [|d [|e [|f [|g [|h [|i v]]]]]]]]]; reflexivity.
Qed.

Lemma fold_step_length (kws : list (Z * Z)) :
  forall v : list Z, length (fold_left SHA256.step kws v) = length v.
Proof.
  induction kws as [|kw kws IH]; intros v; [reflexivity|].
  cbn [fold_left]. rewrite IH. apply step_length.
Qed.

Lemma compress_length (h block : list Z) :
  length (SHA256.compress h block) = length h.
Proof.
  unfold SHA256.compress. rewrite length_zip_with, fold_step_length. lia.
Qed.

Lemma absorb_length (n : nat) :
  forall ws h : list Z, length (SHA256.absorb n ws h) = length h.
Proof.
  induction n as [|n IH]; intros ws h; [reflexivity|].
  destruct ws as [|w ws]; [reflexivity|].
  cbn [SHA256.absorb]. rewrite IH. apply compress_length.
Qed.

Lemma digest_length (msg : list Z) : length (SHA256.digest msg) = 8%nat.
Proof. unfold SHA256.digest. rewrite absorb_length. reflexivity. Qed.

Lemma hexdigest_format (msg : list Z) :
  String.length (SHA256.hexdigest msg) = 64%nat /\
  Forall hex_char (list_ascii_of_string (SHA256.hexdigest msg)).
Proof.
  unfold SHA256.hexdigest. pose proof (digest_length msg) as Hlen.
  assert (H : forall ws : list Z,
    String.length (fold_right (fun w s => SHA256.hex 8 w +:+ s) EmptyString ws)
    = (8 * length ws)%nat /\
    Forall hex_char
      (list_ascii_of_string
         (fold_right (fun w s => SHA256.hex 8 w +:+ s) EmptyString ws))).
  { induction ws as [|w ws [IHlen IHchars]]; [split; [reflexivity | constructor]|].
    cbn [fold_right]. destruct (hex_format 8 w) as [Hl Hc]. split.
    - rewrite string_length_app, Hl, IHlen. simpl. lia.
    - rewrite chars_app. apply Forall_app. split; assumption. }
  destruct (H (SHA256.digest msg)) as [Hl Hc]. split; [|exact Hc].
  rewrite Hl, Hlen. reflexivity.
Qed.

(** X1. The hash of a block is a string of 64 lowercase hexadecimal
    digits; in particular it is not empty, so it counts as true where
    [new_block] tests a [previous_hash]. *)
Theorem hash_format (block : Block) :
  String.length (hash block) = 64%nat /\
  Forall hex_char (list_ascii_of_string (hash block)) /\
  truthy (PStr (hash block)) = true.
Proof.
  destruct (hexdigest_format (Py.encode (json_dumps block))) as [Hlen Hchars].
  split; [exact Hlen|]. split; [exact Hchars|].
  unfold hash in *. cbn [truthy].
  destruct (SHA256.hexdigest (Py.encode (json_dumps block))); [discriminate | reflexivity].
Qed.

Lemma hash_truthy (block : Block) : truthy (PStr (hash block)) = true.
Proof.
  destruct (hexdigest_format (Py.encode (json_dumps block))) as [Hlen _].
  unfold hash. cbn [truthy].
  destruct (SHA256.hexdigest (Py.encode (json_dumps block))); [discriminate | reflexivity].
Qed.

(** ** Creating blocks *)

(** X2. Passing the hash of the tip as [previous_hash] is the same as
    passing none: the outcome and the ledger are equal. *)
Theorem new_block_explicit_tip_hash (p : Z) (now : Timestamp) (self : Blockchain)
    (tip : Block) :
  last (chain self) = Some tip ->
  new_block p (Some (PStr (hash tip))) now self = new_block p None now self.
Proof.
  intros Htip.
  rewrite (new_block_run p (Some (PStr (hash tip))) now self (PStr (hash tip))).
  - rewrite (new_block_run p None now self (PStr (hash tip))); [reflexivity|].
    apply (previous_hash_or_tip_run None self tip Htip).
  - rewrite (previous_hash_or_tip_run _ self tip Htip).
    unfold stored_previous_hash. rewrite hash_truthy. reflexivity.
Qed.

Lemma new_block_explicit_tip_hash_witness :
  last (chain Sample.ledger2) = Some (grow_tip Sample.ledger2) /\
  new_block 35089 (Some (PStr (hash (grow_tip Sample.ledger2)))) Sample.t2 Sample.ledger2
  = new_block 35089 None Sample.t2 Sample.ledger2.
Proof.
  split; [reflexivity|]. apply new_block_explicit_tip_hash. reflexivity.
Defined.


(** X3. On a ledger without any block, [new_block] raises [IndexError] and
    changes nothing when no [previous_hash] is given or the one given is
    false; given one that is true, it creates the first block, of index 1,
    holding that value and the pending pool. *)
Theorem new_block_empty_chain (p : Z) (supplied : option PyVal) (now : Timestamp)
    (self : Blockchain) :
  chain self = [] ->
  ((forall v, supplied = Some v -> truthy v = false) ->
   new_block p supplied now self = (Raise IndexError, self)) /\
  (forall v, supplied = Some v -> truthy v = true ->
     let block := {| index := 1; timestamp := now;
                     transactions := current_transactions self;
                     proof := p; previous_hash := v |} in
     new_block p supplied now self
     = (Return block, {| chain := [block]; current_transactions := [];
                         nodes := nodes self |})).
Proof.
  intros Hempty. split.
  - intros Hfalsy. apply new_block_raise. unfold previous_hash_or_tip.
    destruct supplied as [v|]; [rewrite (Hfalsy v eq_refl)|];
      unfold mbind, M_bind; rewrite last_block_run, Hempty; reflexivity.
  - intros v -> Hv block.
    rewrite (new_block_run p (Some v) now self v).
    + rewrite Hempty. reflexivity.
    + unfold previous_hash_or_tip. rewrite Hv. reflexivity.
Qed.

Lemma new_block_empty_chain_witness :
  new_block 7 (Some (PInt 0)) Sample.t0 empty_ledger = (Raise IndexError, empty_ledger) /\
  new_block 7 (Some (PStr "ab")) Sample.t0 empty_ledger
  = (Return {| index := 1; timestamp := Sample.t0; transactions := [];
               proof := 7; previous_hash := PStr "ab" |},
     {| chain := [{| index := 1; timestamp := Sample.t0; transactions := [];
                     proof := 7; previous_hash := PStr "ab" |}];
        current_transactions := []; nodes := ∅ |}).
Proof.
  split.
  - apply (new_block_empty_chain 7 (Some (PInt 0)) Sample.t0 empty_ledger eq_refl).
    intros v [= <-]. reflexivity.
  - apply (proj2 (new_block_empty_chain 7 (Some (PStr "ab")) Sample.t0 empty_ledger
                    eq_refl) (PStr "ab") eq_refl eq_refl).
Defined.

(** ** Submitting and mining *)

(** X4. On a ledger without any block [add_transaction] raises
    [IndexError], and the transaction is in the pool all the same: the
    exception comes after the append. *)
Theorem add_transaction_empty_chain (s r : string) (a : Z) (self : Blockchain) :
  chain self = [] ->
  add_transaction s r a self
  = (Raise IndexError,
     {| chain := [];
        current_transactions :=
          current_transactions self ++ [{| sender := s; recipient := r; amount := a |}];
        nodes := nodes self |}).
Proof. intros H. rewrite add_transaction_run, H. reflexivity. Qed.

Lemma add_transaction_empty_chain_witness :
  add_transaction "alice" "bob" 5 empty_ledger
  = (Raise IndexError,
     {| chain := [];
        current_transactions := [Sample.alice_pays_bob];
        nodes := ∅ |}).
Proof. apply (add_transaction_empty_chain "alice" "bob" 5 empty_ledger). reflexivity. Defined.

Lemma proof_of_work_loop_least (last_proof : Z) (fuel : nat) :
  forall start p : Z,
    proof_of_work_loop fuel last_proof start = Some p ->
    forall q, start <= q < p -> valid_proof last_proof q = false.
Proof.
  induction fuel as [|fuel IH]; intros start p H q Hq; [discriminate|].
  cbn [proof_of_work_loop] in H.
  destruct (valid_proof last_proof start) eqn:E; cbn [negb] in H.
  - injection H as <-. lia.
  - destruct (decide (q = start)) as [->|Hne]; [exact E|].
    apply (IH (start + 1) p H). lia.
Qed.

Lemma default_last_cons {A} (x b : A) (r : list A) :
  default x (last (b :: r)) = default b (last r).
Proof. rewrite last_cons. destruct (last r); reflexivity. Qed.

(** The verdict on a chain read in two parts: the first part, then the
    second one entered from the last block of the first. *)
Lemma valid_links_app (r1 r2 : list Block) :
  forall first : Block,
    valid_links first (r1 ++ r2)
    = valid_links first r1 && valid_links (default first (last r1)) r2.
Proof.
  induction r1 as [|b r1 IH]; intros first.
  - reflexivity.
  - rewrite default_last_cons. cbn [app valid_links].
    destruct (eq_str (previous_hash b) (hash first)); cbn [negb]; [|reflexivity].
    destruct (valid_proof (proof first) (proof b)); cbn [negb]; [|reflexivity].
    apply IH.
Qed.

Lemma passes_snoc (c : list Block) (tip b : Block) :
  last c = Some tip ->
  passes (c ++ [b])
  = passes c && eq_str (previous_hash b) (hash tip)
             && valid_proof (proof tip) (proof b).
Proof.
  intros Htip. destruct c as [|first rest]; [discriminate|].
  cbn [app passes]. rewrite valid_links_app.
  assert (Hlast : default first (last rest) = tip).
  { rewrite <- (default_last_cons first first rest), Htip. reflexivity. }
  rewrite Hlast. cbn [valid_links].
  destruct (valid_links first rest); cbn [andb]; [|reflexivity].
  destruct (eq_str (previous_hash b) (hash tip)); cbn [negb andb]; [|reflexivity].
  destruct (valid_proof (proof tip) (proof b)); reflexivity.
Qed.

(** X5. Validation composes: a chain with one more block passes exactly
    when the chain passes and the new block is linked to its last block;
    and the non-empty beginning of a chain that passes also passes. *)
Theorem valid_chain_extension (c : list Block) (tip b : Block) :
  last c = Some tip ->
  (accepted (c ++ [b]) <-> accepted c /\ linked tip b) /\
  (forall c1 c2, c = c1 ++ c2 -> c1 <> [] -> accepted c -> accepted c1).
Proof.
  intros Htip. split.
  - rewrite !accepted_passes, (passes_snoc c tip b Htip).
    unfold linked. rewrite <- eq_str_true.
    rewrite !andb_true_iff. tauto.
  - intros c1 c2 -> Hne. rewrite !accepted_passes.
    destruct c1 as [|first r1]; [congruence|].
    cbn [app passes]. rewrite valid_links_app.
    intros H. apply andb_true_iff in H. apply H.
Qed.

Lemma valid_chain_extension_witness :
  (accepted (chain Sample.ledger2 ++ [grow_tip Sample.ledger3]) <->
   accepted (chain Sample.ledger2) /\
   linked (grow_tip Sample.ledger2) (grow_tip Sample.ledger3)) /\
  (forall c1 c2, chain Sample.ledger2 = c1 ++ c2 -> c1 <> [] ->
                 accepted (chain Sample.ledger2) -> accepted c1).
Proof. apply valid_chain_extension. reflexivity. Defined.

(** X6. [mine] on a ledger that has a tip, when the search ends: it never
    raises; it appends one block, whose index is the number of blocks plus
    one, whose [previous_hash] is the hash of the tip, whose proof is the
    least valid one against the tip's proof, and whose transactions are the
    pool followed by the reward; the pool is left empty, the peers
    untouched, and a chain that passed [valid_chain] still passes. *)
Theorem mine_appends_block (node : string) (fuel : nat) (now : Timestamp)
    (self : Blockchain) (tip : Block) (out : Outcome Block) (self2 : Blockchain) :
  last (chain self) = Some tip ->
  mine node fuel now self = Some (out, self2) ->
  exists block,
    out = Return block /\
    self2 = {| chain := chain self ++ [block]; current_transactions := [];
               nodes := nodes self |} /\
    index block = Z.of_nat (length (chain self)) + 1 /\
    timestamp block = now /\
    transactions block = current_transactions self ++ [reward node] /\
    previous_hash block = PStr (hash tip) /\
    0 <= proof block /\
    valid_proof (proof tip) (proof block) = true /\
    (forall q, 0 <= q < proof block -> valid_proof (proof tip) q = false) /\
    (accepted (chain self) -> accepted (chain self2)).
Proof.
  intros Htip H.
  destruct (proof_of_work fuel (proof tip)) as [p|] eqn:Hp.
  - rewrite (mine_run node fuel now self tip p Htip Hp), add_transaction_run in H.
    cbn [snd] in H.
    erewrite new_block_run in H
      by (apply (previous_hash_or_tip_run None _ tip); exact Htip).
    cbn [chain current_transactions nodes] in H. injection H as <- <-.
    destruct (proof_of_work_sound _ _ _ Hp) as [Hp0 Hvalid].
    eexists. split; [reflexivity|]. split; [reflexivity|].
    cbn [index timestamp transactions previous_hash proof chain].
    repeat split; try assumption.
    + intros q Hq. apply (proof_of_work_loop_least _ _ _ _ Hp). exact Hq.
    + rewrite !accepted_passes. intros Hpasses.
      rewrite (passes_snoc _ tip _ Htip), Hpasses.
      cbn [previous_hash proof eq_str]. rewrite String.eqb_refl, Hvalid. reflexivity.
  - unfold mine in H. rewrite last_block_run, Htip, Hp in H. discriminate.
Qed.

Lemma mine_appends_block_witness :
  exists fuel block,
    mine Sample.node_id fuel Sample.t1 Sample.ledger1
    = Some (Return block,
            {| chain := chain Sample.ledger1 ++ [block]; current_transactions := [];
               nodes := nodes Sample.ledger1 |}) /\
    index block = 2 /\
    transactions block = [reward Sample.node_id] /\
    previous_hash block = PStr (hash Sample.genesis) /\
    valid_proof 100 (proof block) = true.
Proof.
  destruct (proof_of_work_returns 100 35293) as (q & _ & _ & _ & Hrun);
    [lia | vm_compute; reflexivity |].
  pose proof (Hrun (S (Z.to_nat q))) as Hq.
  destruct (decide (Z.to_nat q < S (Z.to_nat q))%nat); [|lia].
  pose proof (mine_run Sample.node_id _ Sample.t1 Sample.ledger1 Sample.genesis q
                eq_refl Hq) as Hmine.
  destruct (new_block q None Sample.t1
              (add_transaction "0" Sample.node_id 1 Sample.ledger1).2)
    as [out self2] eqn:E.
  destruct (mine_appends_block Sample.node_id _ Sample.t1 Sample.ledger1
              Sample.genesis out self2 eq_refl Hmine)
    as (block & -> & -> & Hindex & _ & Htx & Hprev & _ & Hvalid & _).
  exists (S (Z.to_nat q)), block.
  split; [exact Hmine|]. split; [exact Hindex|]. split; [exact Htx|].
  split; [exact Hprev | exact Hvalid].
Defined.

Lemma valid_chain_passes (c : list Block) (self : Blockchain) :
  c <> [] -> valid_chain c self = (Return (passes c), self).
Proof. intros H. destruct c; [congruence | reflexivity]. Qed.

(** X7. [valid_chain] never reads the index, the timestamp or the
    transactions of the last block: replacing the last block by any block
    with the same proof and the same [previous_hash] leaves the verdict
    as it was. *)
Theorem valid_chain_ignores_tip_content (init : list Block) (tip tip2 : Block)
    (self : Blockchain) :
  proof tip2 = proof tip ->
  previous_hash tip2 = previous_hash tip ->
  valid_chain (init ++ [tip2]) self = valid_chain (init ++ [tip]) self.
Proof.
  intros Hproof Hprev.
  destruct (last init) as [before|] eqn:E.
  - rewrite !valid_chain_passes by (destruct init; discriminate).
    rewrite !(passes_snoc init before) by exact E.
    rewrite Hproof, Hprev. reflexivity.
  - apply last_None in E. subst init. reflexivity.
Qed.

Lemma valid_chain_ignores_tip_content_witness :
  let tip := grow_tip Sample.ledger3 in
  let forged := {| index := 99; timestamp := Sample.t4;
                   transactions := [Sample.alice_pays_bob];
                   proof := proof tip; previous_hash := previous_hash tip |} in
  forged <> tip /\
  valid_chain (chain Sample.ledger2 ++ [forged]) Sample.ledger1
  = valid_chain (chain Sample.ledger2 ++ [tip]) Sample.ledger1.
Proof.
  split; [discriminate|].
  apply valid_chain_ignores_tip_content; reflexivity.
Defined.

(** X8. The index [add_transaction] returns is the index of the block the
    transaction ends up in: on a ledger whose tip's index is the number of
    blocks, the block the next [mine] creates has that index, holds the
    transaction and becomes the tip. *)
Theorem add_transaction_index_is_mined (self : Blockchain) (tip : Block)
    (s r : string) (a : Z) (node : string) (fuel : nat) (now : Timestamp)
    (out : Outcome Block) (self2 : Blockchain) :
  last (chain self) = Some tip ->
  index tip = Z.of_nat (length (chain self)) ->
  mine node fuel now (add_transaction s r a self).2 = Some (out, self2) ->
  exists (i : Z) (block : Block),
    (add_transaction s r a self).1 = Return i /\
    out = Return block /\
    index block = i /\
    {| sender := s; recipient := r; amount := a |} ∈ transactions block /\
    last (chain self2) = Some block.
Proof.
  intros Htip Hindex Hmine.
  assert (Htip1 : last (chain (add_transaction s r a self).2) = Some tip)
    by (rewrite add_transaction_run; exact Htip).
  destruct (proof_of_work fuel (proof tip)) as [p|] eqn:Hp.
  - rewrite (mine_run node fuel now _ tip p Htip1 Hp) in Hmine.
    rewrite !add_transaction_run in Hmine. cbn [snd] in Hmine.
    erewrite new_block_run in Hmine
      by (apply (previous_hash_or_tip_run None _ tip); exact Htip).
    cbn [chain current_transactions nodes] in Hmine. injection Hmine as <- <-.
    rewrite add_transaction_run, Htip. cbn [fst].
    eexists _, _. split; [reflexivity|]. split; [reflexivity|].
    cbn [index transactions chain]. split; [lia|]. split.
    + rewrite !elem_of_app. left. right. left.
    + apply last_snoc.
  - unfold mine in Hmine. rewrite last_block_run, Htip1, Hp in Hmine. discriminate.
Qed.

Lemma add_transaction_index_is_mined_witness :
  exists (fuel : nat) (block : Block) (self2 : Blockchain),
    (add_transaction "alice" "bob" 5 Sample.ledger1).1 = Return 2 /\
    mine Sample.node_id fuel Sample.t1 (add_transaction "alice" "bob" 5 Sample.ledger1).2
    = Some (Return block, self2) /\
    index block = 2 /\
    Sample.alice_pays_bob ∈ transactions block /\
    last (chain self2) = Some block.
Proof.
  destruct (proof_of_work_returns 100 35293) as (q & _ & _ & _ & Hrun);
    [lia | vm_compute; reflexivity |].
  pose proof (Hrun (S (Z.to_nat q))) as Hq.
  destruct (decide (Z.to_nat q < S (Z.to_nat q))%nat); [|lia].
  pose proof (mine_run Sample.node_id _ Sample.t1
                (add_transaction "alice" "bob" 5 Sample.ledger1).2
                Sample.genesis q eq_refl Hq) as Hmine.
  destruct (new_block q None Sample.t1 _) as [out self2] eqn:E in Hmine.
  destruct (add_transaction_index_is_mined Sample.ledger1 Sample.genesis
              "alice" "bob" 5 Sample.node_id _ Sample.t1 out self2
              eq_refl eq_refl Hmine)
    as (i & block & Hi & -> & Hindex & Hin & Hlast).
  exists (S (Z.to_nat q)), block, self2.
  split; [reflexivity|]. split; [exact Hmine|].
  split; [|split; [exact Hin | exact Hlast]].
  rewrite Hindex. vm_compute in Hi. congruence.
Defined.

(** ** Invariants *)

(** X9. A ledger built by submissions and mining keeps the genesis block
    it was constructed with as its first block, unchanged: index 1, proof
    100, [previous_hash] 1, no transaction; and it has no peer. *)
Theorem built_keeps_genesis (self : Blockchain) :
  built self ->
  exists (now : Timestamp) (rest : list Block),
    chain self = genesis_block now :: rest /\ nodes self = ∅.
Proof.
  induction 1 as [now | self s r a Hbuilt IH | self tip fuel p now Hbuilt IH Htip Hp].
  - exists now, []. split; reflexivity.
  - rewrite add_transaction_run. exact IH.
  - destruct IH as (now0 & rest & Hchain & Hnodes).
    rewrite (new_block_run p None now self _ (previous_hash_or_tip_run None self tip Htip)).
    cbn [snd chain nodes]. rewrite Hchain.
    eexists now0, _. split; [reflexivity | exact Hnodes].
Qed.

Lemma built_keeps_genesis_witness :
  exists (now : Timestamp) (rest : list Block),
    chain (add_transaction "alice" "bob" 5 (fresh_ledger Sample.t0)).2
    = genesis_block now :: rest /\
    nodes (add_transaction "alice" "bob" 5 (fresh_ledger Sample.t0)).2 = ∅.
Proof.
  apply built_keeps_genesis. apply built_submit. apply built_fresh.
Defined.

(** The scan only ever holds a chain that passed [valid_chain], whatever
    the peers send. *)
Lemma resolve_loop_holds_valid (get : string -> Fetch) (neighbours : list string) :
  forall (max_length : Z) (new_chain : option (list Block)) (self s : Blockchain)
         (found : Z * option (list Block)),
    (forall c, new_chain = Some c -> passes c = true) ->
    resolve_loop get neighbours max_length new_chain self = (Return found, s) ->
    forall c, found.2 = Some c -> passes c = true.
Proof.
  induction neighbours as [|node rest IH];
    intros max_length new_chain self s found Hheld Hrun.
  - injection Hrun as <- _. exact Hheld.
  - cbn [resolve_loop] in Hrun.
    destruct (get node) as [|status_code body]; [discriminate|].
    destruct (status_code =? 200); [|exact (IH _ _ _ _ _ Hheld Hrun)].
    destruct body as [|[n|] [c|]]; try discriminate.
    revert Hrun. run. cbn [json_length json_chain]. run.
    destruct (max_length <? n).
    + destruct c as [|first c]; [discriminate|]. cbn [valid_chain]. run.
      destruct (valid_links first c) eqn:Hvalid; intros Hrun.
      * refine (IH _ _ _ _ _ _ Hrun). intros c0 [= <-]. exact Hvalid.
      * exact (IH _ _ _ _ _ Hheld Hrun).
    + run. intros Hrun. exact (IH _ _ _ _ _ Hheld Hrun).
Qed.

Lemma resolve_conflicts_adopts_valid (get : string -> Fetch)
    (iter : gset string -> list string) (self : Blockchain) :
  (resolve_conflicts get iter self).2 = self \/
  exists c, passes c = true /\ (resolve_conflicts get iter self).2 = with_chain self c.
Proof.
  unfold resolve_conflicts. run.
  pose proof (resolve_loop_state get (iter (nodes self))
                (Z.of_nat (length (chain self))) None self) as Hs.
  pose proof (resolve_loop_holds_valid get (iter (nodes self))
                (Z.of_nat (length (chain self))) None self) as Hv.
  destruct (resolve_loop get (iter (nodes self)) (Z.of_nat (length (chain self)))
              None self) as [[[m [[|b c]|]]|e] s]; simpl in Hs; subst s; simpl;
    try (left; reflexivity).
  right. exists (b :: c). split; [|reflexivity].
  apply (Hv self (m, Some (b :: c))); [discriminate | reflexivity | reflexivity].
Qed.

Lemma reachable_invariant (self : Blockchain) :
  reachable self -> passes (chain self) = true.
Proof.
  induction 1 as [now | self s r a _ IH | self tip fuel p now _ IH Htip Hp
                 | self netloc address _ IH | self get iter _ IH].
  - reflexivity.
  - rewrite add_transaction_run. exact IH.
  - rewrite (new_block_run p None now self _ (previous_hash_or_tip_run None self tip Htip)).
    cbn [snd chain]. rewrite (passes_snoc _ tip _ Htip), IH.
    cbn [previous_hash proof eq_str stored_previous_hash andb].
    rewrite String.eqb_refl.
    destruct (proof_of_work_sound _ _ _ Hp) as [_ ->]. reflexivity.
  - rewrite register_node_run. destruct (netloc address); exact IH.
  - destruct (resolve_conflicts_adopts_valid get iter self) as [->|(c & Hc & ->)];
      [exact IH | exact Hc].
Qed.

(** X10. Whatever a node has been through (submissions, mining, peers
    registered, resolutions against any peers, failed or not) its chain is
    never empty and passes [valid_chain]. *)
Theorem reachable_chain_valid (self : Blockchain) :
  reachable self ->
  chain self <> [] /\ accepted (chain self).
Proof.
  intros Hreach. pose proof (reachable_invariant self Hreach) as Hpasses.
  split; [|apply accepted_passes; exact Hpasses].
  intros E. rewrite E in Hpasses. discriminate.
Qed.

Lemma reachable_chain_valid_witness :
  let self :=
    (resolve_conflicts Sample.boaster elements
       (register_node Sample.netloc Sample.address4
          (add_transaction "alice" "bob" 5 (fresh_ledger Sample.t0)).2).2).2 in
  current_transactions self = [Sample.alice_pays_bob] /\
  nodes self = {[ Sample.peer4 ]} /\
  chain self <> [] /\ accepted (chain self).
Proof.
  split; [vm_compute; reflexivity|]. split; [vm_compute; reflexivity|].
  apply reachable_chain_valid.
  apply reach_resolve, reach_register, reach_submit, reach_fresh.
Defined.

(** ** Consensus, further *)

Lemma pick_fst (acc : Z * option (list Block)) (offer : Z * list Block) :
  (pick acc offer).1 = if passes offer.2 then Z.max acc.1 offer.1 else acc.1.
Proof.
  unfold pick. destruct (Z.ltb_spec acc.1 offer.1); destruct (passes offer.2);
    cbn [andb fst]; lia.
Qed.

Lemma fold_pick_fst_eq (offers : list (Z * list Block)) :
  forall a1 a2 : Z * option (list Block),
    a1.1 = a2.1 -> (fold_left pick offers a1).1 = (fold_left pick offers a2).1.
Proof.
  induction offers as [|offer offers IH]; intros a1 a2 H; [exact H|].
  cbn [fold_left]. apply IH. rewrite !pick_fst, H. reflexivity.
Qed.

(** The best length does not depend on the order of the offers. *)
Lemma fold_pick_fst_perm (offers1 offers2 : list (Z * list Block)) :
  offers1 ≡ₚ offers2 ->
  forall a1 a2 : Z * option (list Block),
    a1.1 = a2.1 -> (fold_left pick offers1 a1).1 = (fold_left pick offers2 a2).1.
Proof.
  induction 1 as [|x l1 l2 _ IH|x y l|l1 l2 l3 _ IH1 _ IH2]; intros a1 a2 H.
  - exact H.
  - cbn [fold_left]. apply IH. rewrite !pick_fst, H. reflexivity.
  - cbn [fold_left]. apply fold_pick_fst_eq. rewrite !pick_fst, H.
    destruct (passes x.2), (passes y.2); lia.
  - rewrite (IH1 a1 a2 H). apply IH2. reflexivity.
Qed.

Lemma answers_permutation (get : string -> Fetch) (order1 order2 : list string) :
  order1 ≡ₚ order2 ->
  (forall node, node ∈ order1 -> answers (get node)) ->
  forall node, node ∈ order2 -> answers (get node).
Proof. intros Hperm H node Hin. apply H. rewrite Hperm. exact Hin. Qed.

(** X11. The order in which the peers are visited decides only which of
    the longest valid offers wins: for two orders that visit the same
    answering peers, both resolutions report the same boolean, and when they
    replace the chain both adopt an offer of the same reported length, the
    greatest among the valid ones. *)
Theorem resolve_conflicts_order (get : string -> Fetch)
    (iter1 iter2 : gset string -> list string) (self : Blockchain) :
  let offers := candidates get (iter1 (nodes self)) in
  let local := Z.of_nat (length (chain self)) in
  iter1 (nodes self) ≡ₚ iter2 (nodes self) ->
  (forall node, node ∈ iter1 (nodes self) -> answers (get node)) ->
  (resolve_conflicts get iter1 self = (Return false, self) /\
   resolve_conflicts get iter2 self = (Return false, self)) \/
  (exists c1 c2,
     resolve_conflicts get iter1 self = (Return true, with_chain self c1) /\
     resolve_conflicts get iter2 self = (Return true, with_chain self c2) /\
     (best_length local offers, c1) ∈ offers /\
     (best_length local offers, c2) ∈ offers /\
     accepted c1 /\ accepted c2).
Proof.
  intros offers local Hperm Hanswers1.
  pose proof (answers_permutation get _ _ Hperm Hanswers1) as Hanswers2.
  rewrite (resolve_conflicts_fold get iter1 self Hanswers1).
  rewrite (resolve_conflicts_fold get iter2 self Hanswers2).
  assert (Hoffers : offers ≡ₚ candidates get (iter2 (nodes self))).
  { unfold offers, candidates. rewrite Hperm. reflexivity. }
  pose proof (fold_pick_fst_perm _ _ Hoffers (local, None) (local, None) eq_refl) as Hfst.
  unfold best_length. fold offers local in Hfst |- *.
  destruct (fold_pick_spec offers local None)
    as [[Hfold1 _]|(b1 & n1 & c1 & a1 & Heq1 & Hlt1 & Hv1 & _ & _ & Hfold1)];
  destruct (fold_pick_spec (candidates get (iter2 (nodes self))) local None)
    as [[Hfold2 _]|(b2 & n2 & c2 & a2 & Heq2 & Hlt2 & Hv2 & _ & _ & Hfold2)];
    rewrite Hfold1, Hfold2 in Hfst; rewrite Hfold1, Hfold2; cbn [fst snd] in *.
  - left. split; reflexivity.
  - lia.
  - lia.
  - right. subst n2.
    destruct c1 as [|x1 r1]; [discriminate|]. destruct c2 as [|x2 r2]; [discriminate|].
    exists (x1 :: r1), (x2 :: r2).
    split; [reflexivity|]. split; [reflexivity|].
    split; [rewrite Heq1; apply elem_of_app; right; left|].
    split; [rewrite Hoffers, Heq2; apply elem_of_app; right; left|].
    split; apply accepted_passes; assumption.
Qed.

Lemma resolve_conflicts_order_witness :
  let offers := candidates Sample.network [Sample.peer4; Sample.peer5] in
  (resolve_conflicts Sample.network (fun _ => [Sample.peer4; Sample.peer5]) Sample.replica
   = (Return false, Sample.replica) /\
   resolve_conflicts Sample.network (fun _ => [Sample.peer5; Sample.peer4]) Sample.replica
   = (Return false, Sample.replica)) \/
  (exists c1 c2,
     resolve_conflicts Sample.network (fun _ => [Sample.peer4; Sample.peer5]) Sample.replica
     = (Return true, with_chain Sample.replica c1) /\
     resolve_conflicts Sample.network (fun _ => [Sample.peer5; Sample.peer4]) Sample.replica
     = (Return true, with_chain Sample.replica c2) /\
     (best_length (Z.of_nat (length (chain Sample.replica))) offers, c1) ∈ offers /\
     (best_length (Z.of_nat (length (chain Sample.replica))) offers, c2) ∈ offers /\
     accepted c1 /\ accepted c2).
Proof.
  apply (resolve_conflicts_order Sample.network
           (fun _ => [Sample.peer4; Sample.peer5])
           (fun _ => [Sample.peer5; Sample.peer4]) Sample.replica).
  - apply Permutation_swap.
  - intros node Hin. apply sample_network_answers. rewrite sample_order.
    apply elem_of_cons in Hin. destruct Hin as [->|Hin]; [right; left|].
    apply list_elem_of_singleton in Hin. subst node. left.
Defined.

(** X12. Against peers that report the number of blocks they send, a
    resolution that has returned leaves nothing to do: resolving again
    against the same answers reports [False] and keeps the ledger. *)
Theorem resolve_conflicts_twice (get : string -> Fetch)
    (iter : gset string -> list string) (self self1 : Blockchain) (replaced : bool) :
  (forall node, node ∈ iter (nodes self) -> answers (get node)) ->
  (forall offer, offer ∈ candidates get (iter (nodes self)) ->
                 offer.1 = Z.of_nat (length offer.2)) ->
  resolve_conflicts get iter self = (Return replaced, self1) ->
  resolve_conflicts get iter self1 = (Return false, self1).
Proof.
  intros Hanswers Htruthful H.
  rewrite (resolve_conflicts_fold get iter self Hanswers) in H.
  destruct (fold_pick_spec (candidates get (iter (nodes self)))
              (Z.of_nat (length (chain self))) None)
    as [[Hfold Hnone]|(before & n & c & after & Heq & Hlt & Hv & Hb & Ha & Hfold)];
    rewrite Hfold in H; cbn [snd] in H.
  - injection H as <- <-.
    rewrite (resolve_conflicts_fold get iter self Hanswers), Hfold. reflexivity.
  - destruct c as [|b r]; [discriminate|]. injection H as <- <-.
    assert (Hn : n = Z.of_nat (length (b :: r))).
    { apply (Htruthful (n, b :: r)). rewrite Heq. apply elem_of_app. right. left. }
    rewrite resolve_conflicts_fold by exact Hanswers.
    cbn [with_chain nodes chain].
    destruct (fold_pick_spec (candidates get (iter (nodes self)))
                (Z.of_nat (length (b :: r))) None)
      as [[Hfold2 _]|(before2 & n2 & c2 & after2 & Heq2 & Hlt2 & Hv2 & _ & _ & _)].
    + rewrite Hfold2. reflexivity.
    + exfalso.
      assert (Hin : (n2, c2) ∈ before ++ (n, b :: r) :: after).
      { rewrite <- Heq, Heq2. apply elem_of_app. right. left. }
      apply elem_of_app in Hin. destruct Hin as [Hin|Hin].
      * specialize (Hb _ Hin Hv2). simpl in Hb. lia.
      * apply elem_of_cons in Hin. destruct Hin as [[= -> ->]|Hin]; [lia|].
        specialize (Ha _ Hin Hv2). simpl in Ha. lia.
Qed.

Lemma resolve_conflicts_twice_witness :
  resolve_conflicts Sample.network elements
    (with_chain Sample.replica (chain Sample.ledger5))
  = (Return false, with_chain Sample.replica (chain Sample.ledger5)).
Proof.
  apply (resolve_conflicts_twice Sample.network elements Sample.replica _ true).
  - exact sample_network_answers.
  - rewrite sample_order. intros offer Hin. vm_compute in Hin.
    apply elem_of_cons in Hin. destruct Hin as [->|Hin]; [reflexivity|].
    apply list_elem_of_singleton in Hin. subst offer. reflexivity.
  - vm_compute. reflexivity.
Defined.

(** X13. A peer that reports more blocks than the best so far and sends
    an empty chain makes the resolution raise [IndexError]; the ledger is
    left as it was. *)
Theorem resolve_conflicts_empty_chain_raises (get : string -> Fetch)
    (iter : gset string -> list string) (self : Blockchain)
    (before after : list string) (node : string) (n : Z) :
  iter (nodes self) = before ++ node :: after ->
  (forall peer, peer ∈ before -> answers (get peer)) ->
  get node = Response 200 (Document (Some n) (Some [])) ->
  best_length (Z.of_nat (length (chain self))) (candidates get before) < n ->
  resolve_conflicts get iter self = (Raise IndexError, self).
Proof.
  intros Horder Hanswers Hget Hlt.
  unfold resolve_conflicts. run. rewrite Horder.
  rewrite resolve_loop_app by exact Hanswers.
  cbn [resolve_loop]. rewrite Hget. cbn [Z.eqb Pos.eqb]. run.
  cbn [json_length json_chain]. run.
  unfold best_length in Hlt. apply Z.ltb_lt in Hlt. rewrite Hlt. reflexivity.
Qed.

Lemma resolve_conflicts_empty_chain_raises_witness :
  let get node := if String.eqb node Sample.peer5 then full_chain Sample.ledger4
                  else Response 200 (Document (Some 9) (Some [])) in
  resolve_conflicts get elements Sample.replica = (Raise IndexError, Sample.replica).
Proof.
  intros get.
  apply (resolve_conflicts_empty_chain_raises get elements Sample.replica
           [Sample.peer5] [] Sample.peer4 9).
  - exact sample_order.
  - intros peer Hin. apply list_elem_of_singleton in Hin. subst peer.
    intros _. eexists _, _. split; [reflexivity | discriminate].
  - reflexivity.
  - vm_compute. reflexivity.
Defined.

(** An offer of status 200 that is not longer than the best so far, or
    whose chain is not empty and fails validation, changes nothing in the
    scan, whoever the other peers are. *)
Lemma resolve_loop_passes_over (get : string -> Fetch) (node : string)
    (n : Z) (c : list Block) (before after : list string) :
  get node = Response 200 (Document (Some n) (Some c)) ->
  forall (max_length : Z) (new_chain : option (list Block)) (self : Blockchain),
    n <= max_length \/ (c <> [] /\ passes c = false) ->
    resolve_loop get (before ++ node :: after) max_length new_chain self
    = resolve_loop get (before ++ after) max_length new_chain self.
Proof.
  intros Hget.
  induction before as [|peer before IH]; intros max_length new_chain self Hweak.
  - cbn [app resolve_loop]. rewrite Hget. cbn [Z.eqb Pos.eqb]. run.
    cbn [json_length json_chain]. run.
    destruct (Z.ltb_spec max_length n) as [Hlt|Hge]; [|reflexivity].
    destruct Hweak as [Hle|[Hne Hbad]]; [lia|].
    rewrite (valid_chain_passes c self Hne), Hbad. reflexivity.
  - cbn [app resolve_loop]. destruct (get peer) as [|status_code body]; [reflexivity|].
    destruct (status_code =? 200); [|apply IH; exact Hweak].
    destruct body as [|[m|] [c0|]]; try reflexivity.
    run. cbn [json_length json_chain]. run.
    destruct (Z.ltb_spec max_length m) as [Hlt|Hge]; [|apply IH; exact Hweak].
    destruct c0 as [|first c0]; [reflexivity|]. cbn [valid_chain]. run.
    destruct (valid_links first c0); apply IH; [|exact Hweak].
    destruct Hweak as [Hle|Hbad]; [left; lia | right; exact Hbad].
Qed.

(** X14. An offer no longer than the local chain is never looked at, not
    even when its chain is empty, and an offer whose chain fails
    validation is dropped without an error: in both cases the resolution
    goes as if the peer were not registered. *)
Theorem resolve_conflicts_passes_over (get : string -> Fetch)
    (iter : gset string -> list string) (self : Blockchain)
    (before after : list string) (node : string) (n : Z) (c : list Block) :
  iter (nodes self) = before ++ node :: after ->
  get node = Response 200 (Document (Some n) (Some c)) ->
  n <= Z.of_nat (length (chain self)) \/ (c <> [] /\ ~ accepted c) ->
  resolve_conflicts get iter self
  = resolve_conflicts get (fun _ => before ++ after) self.
Proof.
  intros Horder Hget Hweak.
  unfold resolve_conflicts. run. rewrite Horder.
  rewrite (resolve_loop_passes_over get node n c before after Hget); [reflexivity|].
  destruct Hweak as [Hle|[Hne Hbad]]; [left; exact Hle|].
  right. split; [exact Hne|].
  destruct (passes c) eqn:E; [|reflexivity].
  exfalso. apply Hbad. apply accepted_passes. exact E.
Qed.

Lemma resolve_conflicts_passes_over_witness :
  let get node := if String.eqb node Sample.peer5 then full_chain Sample.ledger5
                  else Response 200 (Document (Some 2) (Some [])) in
  resolve_conflicts get elements Sample.replica
  = resolve_conflicts get (fun _ => [Sample.peer5]) Sample.replica.
Proof.
  intros get.
  apply (resolve_conflicts_passes_over get elements Sample.replica
           [Sample.peer5] [] Sample.peer4 2 []).
  - exact sample_order.
  - reflexivity.
  - left. vm_compute. discriminate.
Defined.

(** X15. Two nodes that run this program: a node whose only peer answers
    with [full_chain] of a ledger whose chain passes validation adopts
    that chain exactly when it has more blocks than its own, and keeps its
    ledger otherwise. *)
Theorem resolve_conflicts_against_replica (iter : gset string -> list string)
    (self peer : Blockchain) (node : string) :
  iter (nodes self) = [node] ->
  accepted (chain peer) ->
  resolve_conflicts (fun _ => full_chain peer) iter self
  = if decide (length (chain self) < length (chain peer))%nat
    then (Return true, with_chain self (chain peer))
    else (Return false, self).
Proof.
  intros Horder Hacc. apply accepted_passes in Hacc.
  assert (Hne : chain peer <> []) by (intros E; rewrite E in Hacc; discriminate).
  rewrite resolve_conflicts_fold.
  - rewrite Horder. unfold candidates, full_chain.
    cbn [omap list_omap payload Z.eqb Pos.eqb fold_left]. unfold pick. cbn [fst snd].
    rewrite Hacc, andb_true_r.
    destruct (Z.ltb_spec (Z.of_nat (length (chain self)))
                (Z.of_nat (length (chain peer)))); case_decide; try lia.
    + cbn [snd]. destruct (chain peer); [congruence | reflexivity].
    + reflexivity.
  - intros node0 _ _. eexists _, _. split; [reflexivity | exact Hne].
Qed.

Lemma resolve_conflicts_against_replica_witness :
  let self := (register_node Sample.netloc Sample.address4 Sample.ledger2).2 in
  resolve_conflicts (fun _ => full_chain Sample.ledger4) elements self
  = (Return true, with_chain self (chain Sample.ledger4)) /\
  resolve_conflicts (fun _ => full_chain Sample.ledger1) elements self
  = (Return false, self).
Proof.
  intros self. split.
  - rewrite (resolve_conflicts_against_replica elements self Sample.ledger4 Sample.peer4).
    + reflexivity.
    + vm_compute. reflexivity.
    + apply accepted_passes. vm_compute. reflexivity.
  - rewrite (resolve_conflicts_against_replica elements self Sample.ledger1 Sample.peer4).
    + reflexivity.
    + vm_compute. reflexivity.
    + apply accepted_passes. reflexivity.
Defined.

(** ** Request handlers *)

(** X16. [new_transactions] answers 400 and leaves the ledger as it was as
    soon as one of the three keys is missing; with the three keys it
    answers 201, names the index after the tip's, and the transaction is
    the last of the pool, the chain and the peers being untouched. *)
Theorem new_transactions_reply (values : NewTransaction) (self : Blockchain)
    (tip : Block) :
  last (chain self) = Some tip ->
  ((values_sender values = None \/ values_recipient values = None \/
    values_amount values = None) ->
   new_transactions values self = (Return (Missing_values, 400), self)) /\
  (forall s r a,
     values_sender values = Some s -> values_recipient values = Some r ->
     values_amount values = Some a ->
     new_transactions values self
     = (Return (Added (index tip + 1), 201),
        {| chain := chain self;
           current_transactions :=
             current_transactions self
               ++ [{| sender := s; recipient := r; amount := a |}];
           nodes := nodes self |})).
Proof.
  intros Htip. unfold new_transactions. split.
  - intros Hmissing.
    destruct (values_sender values), (values_recipient values), (values_amount values);
      try reflexivity.
    destruct Hmissing as [H|[H|H]]; discriminate.
  - intros s r a -> -> ->. run. rewrite add_transaction_run, Htip. reflexivity.
Qed.

Lemma new_transactions_reply_witness :
  new_transactions {| values_sender := Some "alice"; values_recipient := Some "bob";
                      values_amount := None |} Sample.ledger2
  = (Return (Missing_values, 400), Sample.ledger2) /\
  new_transactions {| values_sender := Some "alice"; values_recipient := Some "bob";
                      values_amount := Some 5 |} Sample.ledger2
  = (Return (Added 3, 201),
     {| chain := chain Sample.ledger2;
        current_transactions := [Sample.alice_pays_bob];
        nodes := nodes Sample.ledger2 |}).
Proof.
  split.
  - apply (proj1 (new_transactions_reply _ Sample.ledger2 (grow_tip Sample.ledger2)
                    eq_refl)).
    right. right. reflexivity.
  - apply (proj2 (new_transactions_reply _ Sample.ledger2 (grow_tip Sample.ledger2)
                    eq_refl) "alice" "bob" 5); reflexivity.
Defined.

Lemma register_each_run (netloc : string -> option string) (new_nodes : list string) :
  forall self : Blockchain,
    Forall (fun address => is_Some (netloc address)) new_nodes ->
    register_each netloc new_nodes self
    = (Return tt, {| chain := chain self;
                     current_transactions := current_transactions self;
                     nodes := list_to_set (omap netloc new_nodes) ∪ nodes self |}).
Proof.
  induction new_nodes as [|node rest IH]; intros self Hall.
  - cbn [register_each omap list_omap list_to_set]. run.
    rewrite (left_id_L ∅ (∪)). destruct self. reflexivity.
  - apply Forall_cons in Hall. destruct Hall as [[location Hnode] Hrest].
    cbn [register_each omap list_omap]. unfold mbind, M_bind.
    rewrite register_node_run, Hnode. rewrite (IH _ Hrest).
    cbn [chain current_transactions nodes list_to_set].
    f_equal. f_equal.
    rewrite (assoc_L (∪)).
    rewrite (comm_L (∪) (list_to_set (omap netloc rest)) {[location]}).
    reflexivity.
Qed.

(** The loop stops at the first address [urlparse] rejects; the addresses
    before it have been registered. *)
Lemma register_each_raise (netloc : string -> option string)
    (before after : list string) (address : string) :
  forall self : Blockchain,
    Forall (fun a => is_Some (netloc a)) before ->
    netloc address = None ->
    register_each netloc (before ++ address :: after) self
    = (Raise ValueError,
       {| chain := chain self;
          current_transactions := current_transactions self;
          nodes := list_to_set (omap netloc before) ∪ nodes self |}).
Proof.
  induction before as [|node before IH]; intros self Hall Hbad.
  - cbn [app register_each omap list_omap list_to_set]. unfold mbind, M_bind.
    rewrite register_node_run, Hbad.
    rewrite (left_id_L ∅ (∪)). destruct self. reflexivity.
  - apply Forall_cons in Hall. destruct Hall as [[location Hnode] Hrest].
    cbn [app register_each omap list_omap]. unfold mbind, M_bind.
    rewrite register_node_run, Hnode. rewrite (IH _ Hrest Hbad).
    cbn [chain current_transactions nodes list_to_set].
    f_equal. f_equal.
    rewrite (assoc_L (∪)).
    rewrite (comm_L (∪) (list_to_set (omap netloc before)) {[location]}).
    reflexivity.
Qed.

(** X17. [resister_new_node] answers 400 and changes nothing when the
    request has no ['nodes'].  When [urlparse] accepts every address sent,
    it answers 201 and adds the network location of each to the peers,
    keeping the peers already there, the chain and the pool; peers form a
    set, so the same request sent again changes nothing more.  When
    [urlparse] rejects an address, the handler raises [ValueError] instead
    of answering, and the addresses before that one stay registered. *)
Theorem resister_new_node_reply (netloc : string -> option string)
    (iter : gset string -> list string) (self : Blockchain) :
  resister_new_node netloc iter None self = (Return (Invalid_list, 400), self) /\
  (forall new_nodes,
     Forall (fun address => is_Some (netloc address)) new_nodes ->
     let registered :=
       {| chain := chain self;
          current_transactions := current_transactions self;
          nodes := list_to_set (omap netloc new_nodes) ∪ nodes self |} in
     resister_new_node netloc iter (Some new_nodes) self
     = (Return (Total_nodes (iter (nodes registered)), 201), registered) /\
     (forall peer, peer ∈ nodes registered <->
                   peer ∈ nodes self \/
                   exists address, address ∈ new_nodes /\ netloc address = Some peer) /\
     resister_new_node netloc iter (Some new_nodes) registered
     = (Return (Total_nodes (iter (nodes registered)), 201), registered)) /\
  (forall before address after,
     Forall (fun a => is_Some (netloc a)) before ->
     netloc address = None ->
     resister_new_node netloc iter (Some (before ++ address :: after)) self
     = (Raise ValueError,
        {| chain := chain self;
           current_transactions := current_transactions self;
           nodes := list_to_set (omap netloc before) ∪ nodes self |})).
Proof.
  split; [reflexivity|]. split.
  - intros new_nodes Hall registered.
    assert (Hagain : list_to_set (omap netloc new_nodes) ∪ nodes registered
                     = nodes registered).
    { subst registered. cbn [nodes]. rewrite (assoc_L (∪)), (idemp_L (∪)). reflexivity. }
    split; [|split].
    + unfold resister_new_node. run. rewrite (register_each_run _ _ _ Hall). reflexivity.
    + intros peer. subst registered. cbn [nodes].
      rewrite elem_of_union, elem_of_list_to_set, list_elem_of_omap. tauto.
    + unfold resister_new_node. run. rewrite (register_each_run _ _ _ Hall).
      cbn [chain current_transactions]. rewrite Hagain.
      subst registered. reflexivity.
  - intros before address after Hall Hbad.
    unfold resister_new_node. run.
    rewrite (register_each_raise _ _ _ _ _ Hall Hbad). reflexivity.
Qed.

Lemma resister_new_node_reply_witness :
  let registered :=
    {| chain := chain Sample.ledger1;
       current_transactions := current_transactions Sample.ledger1;
       nodes := {[ Sample.peer4; Sample.peer5 ]} |} in
  resister_new_node Sample.netloc elements
    (Some [Sample.address4; Sample.address5; Sample.address4]) Sample.ledger1
  = (Return (Total_nodes (elements (nodes registered)), 201), registered) /\
  length (elements (nodes registered)) = 2%nat /\
  resister_new_node Sample.netloc elements
    (Some [Sample.address4; Sample.broken_address; Sample.address5]) Sample.ledger1
  = (Raise ValueError,
     {| chain := chain Sample.ledger1;
        current_transactions := current_transactions Sample.ledger1;
        nodes := {[ Sample.peer4 ]} |}).
Proof.
  intros registered.
  destruct (resister_new_node_reply Sample.netloc elements Sample.ledger1)
    as (_ & Hall & Hbad).
  split; [|split; [vm_compute; reflexivity|]].
  - destruct (Hall [Sample.address4; Sample.address5; Sample.address4]) as [H _].
    + repeat constructor; vm_compute; eauto.
    + rewrite H. vm_compute. reflexivity.
  - etransitivity;
      [apply (Hbad [Sample.address4] Sample.broken_address [Sample.address5])|].
    + repeat constructor. vm_compute. eauto.
    + reflexivity.
    + vm_compute. reflexivity.
Defined.

Lemma register_each_reachable (netloc : string -> option string)
    (new_nodes : list string) :
  forall self : Blockchain,
    reachable self -> reachable (register_each netloc new_nodes self).2.
Proof.
  induction new_nodes as [|node rest IH]; intros self Hreach; [exact Hreach|].
  pose proof (reach_register self netloc node Hreach) as Hnode.
  cbn [register_each]. unfold mbind, M_bind.
  destruct (register_node netloc node self) as [[[]|e] self1];
    [apply IH; exact Hnode | exact Hnode].
Qed.

(** X18. The request handlers keep a node among the ledgers covered by the
    invariant of X10: after [new_transactions], [resister_new_node],
    [consensus] (with any peers, raising or not) and a [mine] that ends,
    the ledger is again one a node can reach; and the chain a [consensus]
    reply shows is the node's chain after the resolution, which passes
    [valid_chain]. *)
Theorem handlers_keep_reachable (self : Blockchain) :
  reachable self ->
  (forall values, reachable (new_transactions values self).2) /\
  (forall netloc iter new_nodes,
     reachable (resister_new_node netloc iter new_nodes self).2) /\
  (forall get iter,
     reachable (consensus get iter self).2 /\
     forall replaced shown status self2,
       consensus get iter self = (Return (replaced, shown, status), self2) ->
       status = 200 /\ shown = chain self2 /\ accepted shown /\
       (replaced = false -> self2 = self)) /\
  (forall node fuel now out self2,
     mine node fuel now self = Some (out, self2) -> reachable self2).
Proof.
  intros Hreach. split; [|split; [|split]].
  - intros values. unfold new_transactions.
    destruct (values_sender values) as [s|]; [|exact Hreach].
    destruct (values_recipient values) as [r|]; [|exact Hreach].
    destruct (values_amount values) as [a|]; [|exact Hreach].
    run. pose proof (reach_submit self s r a Hreach) as H.
    destruct (add_transaction s r a self) as [[i|e] s1]; exact H.
  - intros netloc iter [new_nodes|]; [|exact Hreach].
    unfold resister_new_node. run.
    pose proof (register_each_reachable netloc new_nodes self Hreach) as H.
    destruct (register_each netloc new_nodes self) as [[[]|e] self1]; exact H.
  - intros get iter.
    pose proof (reach_resolve self get iter Hreach) as H.
    assert (Hstate : (consensus get iter self).2 = (resolve_conflicts get iter self).2).
    { unfold consensus. run.
      destruct (resolve_conflicts get iter self) as [[b|e] s1]; reflexivity. }
    split; [rewrite Hstate; exact H|].
    intros replaced shown status self2 Hrun.
    rewrite Hrun in Hstate. cbn [snd] in Hstate. subst self2.
    unfold consensus in Hrun. revert Hrun. run.
    destruct (resolve_conflicts_cases get iter self) as [(out & E & Hout)|(c & Hc & E)];
      rewrite E; cbn [snd].
    + destruct out as [b|e]; [|discriminate]. intros [= <- <- <-].
      split; [reflexivity|]. split; [reflexivity|].
      split; [apply accepted_passes, reachable_invariant; exact Hreach|].
      reflexivity.
    + intros [= <- <- <-]. split; [reflexivity|]. split; [reflexivity|].
      split; [|discriminate].
      rewrite E in H. apply accepted_passes. apply (reachable_invariant _ H).
  - intros node fuel now out self2 Hmine.
    pose proof (reachable_invariant self Hreach) as Hpasses.
    assert (Hne : chain self <> []) by (intros E; rewrite E in Hpasses; discriminate).
    destruct (last_nonempty _ Hne) as [tip Htip].
    destruct (proof_of_work fuel (proof tip)) as [p|] eqn:Hp.
    + rewrite (mine_run node fuel now self tip p Htip Hp) in Hmine.
      injection Hmine as Hmine.
      rewrite (surjective_pairing (new_block _ _ _ _)) in Hmine.
      injection Hmine as _ <-.
      apply (reach_mined _ tip fuel p).
      * apply reach_submit. exact Hreach.
      * rewrite add_transaction_run. exact Htip.
      * exact Hp.
    + unfold mine in Hmine. rewrite last_block_run, Htip, Hp in Hmine. discriminate.
Qed.

Lemma handlers_keep_reachable_witness :
  let self := (register_node Sample.netloc Sample.address4 (fresh_ledger Sample.t0)).2 in
  reachable (consensus Sample.boaster elements self).2 /\
  reachable (new_transactions {| values_sender := Some "alice";
                                 values_recipient := Some "bob";
                                 values_amount := Some 5 |} self).2.
Proof.
  intros self.
  destruct (handlers_keep_reachable self) as (Htx & _ & Hconsensus & _).
  - apply reach_register, reach_fresh.
  - split; [apply Hconsensus | apply Htx].
Defined.

(** ** Transactions *)

(** X19. No transaction is lost, repeated or reordered between the pool
    and the blocks: the transactions of the blocks followed by the pending
    ones form a sequence that [add_transaction] extends by the transaction
    submitted, that [new_block] leaves as it is whether it returns or
    raises, that [register_node] leaves as it is, and that a [mine] that
    ends extends by the reward alone. *)
Theorem transactions_conserved (self : Blockchain) :
  (forall s r a,
     ledger_transactions (add_transaction s r a self).2
     = ledger_transactions self ++ [{| sender := s; recipient := r; amount := a |}]) /\
  (forall p supplied now,
     ledger_transactions (new_block p supplied now self).2 = ledger_transactions self) /\
  (forall netloc address,
     ledger_transactions (register_node netloc address self).2
     = ledger_transactions self) /\
  (forall node fuel now out self2,
     mine node fuel now self = Some (out, self2) ->
     ledger_transactions self2
     = if decide (chain self = []) then ledger_transactions self
       else ledger_transactions self ++ [reward node]).
Proof.
  unfold ledger_transactions. split; [|split; [|split]].
  - intros s r a. rewrite add_transaction_run. cbn [snd chain current_transactions].
    rewrite (assoc_L (++)). reflexivity.
  - intros p supplied now.
    destruct (new_block_cases p supplied now self) as [(prev & _ & ->)|(e & ->)];
      [|reflexivity].
    cbn [snd chain current_transactions].
    rewrite fmap_app, concat_app. cbn [fmap list_fmap concat transactions].
    rewrite !app_nil_r. reflexivity.
  - intros netloc address. rewrite register_node_run.
    destruct (netloc address); reflexivity.
  - intros node fuel now out self2 Hmine. case_decide as Hchain.
    + unfold mine in Hmine. rewrite last_block_run, Hchain in Hmine.
      cbn [last] in Hmine. injection Hmine as _ <-. reflexivity.
    + destruct (last_nonempty _ Hchain) as [tip Htip].
      destruct (proof_of_work fuel (proof tip)) as [p|] eqn:Hp.
      * rewrite (mine_run node fuel now self tip p Htip Hp), add_transaction_run in Hmine.
        cbn [snd] in Hmine.
        erewrite new_block_run in Hmine
          by (apply (previous_hash_or_tip_run None _ tip); exact Htip).
        cbn [chain current_transactions nodes] in Hmine. injection Hmine as _ <-.
        cbn [chain current_transactions].
        rewrite fmap_app, concat_app. cbn [fmap list_fmap concat transactions].
        rewrite !app_nil_r, (assoc_L (++)). reflexivity.
      * unfold mine in Hmine. rewrite last_block_run, Htip, Hp in Hmine. discriminate.
Qed.

Lemma transactions_conserved_witness :
  let self := (add_transaction "alice" "bob" 5 Sample.ledger2).2 in
  ledger_transactions self = [Sample.alice_pays_bob] /\
  ledger_transactions (new_block 35089 None Sample.t2 self).2 = [Sample.alice_pays_bob] /\
  current_transactions (new_block 35089 None Sample.t2 self).2 = [].
Proof.
  intros self. split; [reflexivity|]. split; [|reflexivity].
  rewrite (proj1 (proj2 (transactions_conserved self)) 35089 None Sample.t2).
  reflexivity.
Defined.
